(** * Document-RAG-System: chunking, indexing and similarity ranking

    A shallow embedding of [index_documents.py] and [search_documents.py]
    and the properties of their chunking and ranking core.

    Conventions.
    - A Python [str] is a list of Unicode code points ([N]); [str "..."]
      turns a literal into such a list.
    - A Python [int] is a [Z]; slices follow Python's rules for negative
      and out-of-range indices.
    - A Python [float] is a finite value, the rational it denotes ([Q]),
      or one of the infinities or NaN; a score is a finite float.
    - The database holds the table [document_chunks] or does not have it.
    - A raised exception is the [Raise] branch of [result].
    - The [while] loop of [fixed_size_chunks] is run with fuel; [None]
      means the fuel ran out. *)

From Stdlib Require Import String Ascii.
From Stdlib Require Import List ZArith QArith Lia Bool Sorted Permutation.
Import ListNotations.
Local Open Scope Z_scope.

(** ** Python primitives used by the two scripts *)
Module Py.

Definition char := N.
Definition pystr := list char.

Definition chr (a : ascii) : char := N_of_ascii a.

Definition str (s : string) : pystr := map chr (list_ascii_of_string s).

Definition len {A : Type} (l : list A) : Z := Z.of_nat (length l).

(** Truth value of a sequence: [if chunk:], [if not chunk_embedding:]. *)
Definition truthy {A : Type} (l : list A) : bool :=
  match l with [] => false | _ :: _ => true end.

Definition pystr_eqb (a b : pystr) : bool :=
  if list_eq_dec N.eq_dec a b then true else false.

(** Exceptions and results. *)
Inductive exn : Type :=
| ValueError
| DatabaseError.

Inductive result (A : Type) : Type :=
| Ok (a : A)
| Raise (e : exn).
Arguments Ok {A} a.
Arguments Raise {A} e.

Definition bind {A B : Type} (r : result A) (k : A -> result B) : result B :=
  match r with
  | Ok a => k a
  | Raise e => Raise e
  end.

(** [s[start:stop]]: a negative index counts from the end, and both
    indices are clamped to [0, len s]. *)
Definition slice_index (n i : Z) : Z :=
  if i <? 0 then Z.max 0 (i + n) else Z.min i n.

Definition slice {A : Type} (l : list A) (start stop : Z) : list A :=
  let lo := slice_index (len l) start in
  let hi := slice_index (len l) stop in
  firstn (Z.to_nat (hi - lo)) (skipn (Z.to_nat lo) l).

(** [l[:stop]] *)
Definition slice_to {A : Type} (l : list A) (stop : Z) : list A :=
  slice l 0 stop.

(** [range(start, stop, step)], as the list of its elements; a zero step
    raises [ValueError]. *)
Definition range_length (start stop step : Z) : Z :=
  if 0 <? step then
    if start <? stop then (stop - start - 1) / step + 1 else 0
  else
    if stop <? start then (start - stop - 1) / (- step) + 1 else 0.

Definition range (start stop step : Z) : result (list Z) :=
  if step =? 0 then Raise ValueError
  else Ok (map (fun i => start + Z.of_nat i * step)
               (seq 0 (Z.to_nat (range_length start stop step)))).

(** [s.replace(old, new)] for one-character [old] and [new]. *)
Definition replace (old new : char) (s : pystr) : pystr :=
  map (fun c => if N.eqb c old then new else c) s.

Fixpoint starts_with (p s : pystr) : bool :=
  match p, s with
  | [], _ => true
  | _ :: _, [] => false
  | a :: p', b :: s' => N.eqb a b && starts_with p' s'
  end.

(** [s.split(sep)] for a non-empty [sep]: a left-to-right scan; [skip]
    counts the characters of a matched separator still to be passed over
    and [cur] holds the current fragment, reversed. *)
Fixpoint split_go (sep s : pystr) (skip : nat) (cur : pystr) : list pystr :=
  match s with
  | [] => [rev cur]
  | c :: s' =>
      match skip with
      | S k => split_go sep s' k cur
      | O =>
          if starts_with sep s
          then rev cur :: split_go sep s' (length sep - 1) []
          else split_go sep s' 0 (c :: cur)
      end
  end.

Definition split (sep s : pystr) : list pystr := split_go sep s 0 [].

(** [str.isspace] on one code point, the set [s.strip()] removes. *)
Definition isspace (c : char) : bool :=
  ((9 <=? c) && (c <=? 13) || (28 <=? c) && (c <=? 32)
   || (c =? 133) || (c =? 160) || (c =? 5760)
   || (8192 <=? c) && (c <=? 8202)
   || (c =? 8232) || (c =? 8233) || (c =? 8239) || (c =? 8287)
   || (c =? 12288))%N.

Fixpoint lstrip (s : pystr) : pystr :=
  match s with
  | [] => []
  | c :: s' => if isspace c then lstrip s' else s
  end.

Definition rstrip (s : pystr) : pystr := rev (lstrip (rev s)).

Definition strip (s : pystr) : pystr := rstrip (lstrip s).

(** [sep.join(l)] *)
Fixpoint join (sep : pystr) (l : list pystr) : pystr :=
  match l with
  | [] => []
  | x :: rest =>
      match rest with
      | [] => x
      | _ :: _ => x ++ sep ++ join sep rest
      end
  end.

(** [a < b] on finite floats. *)
Definition float_lt (a b : Q) : bool := negb (Qle_bool b a).

(** [l.sort(key=key)]: a stable ascending sort, comparing keys with [<]
    only.  Insertion from the right keeps an element in front of the
    later elements of equal key. *)
Fixpoint sort_insert {A : Type} (key : A -> Q) (x : A) (l : list A) : list A :=
  match l with
  | [] => [x]
  | y :: l' =>
      if float_lt (key y) (key x) then y :: sort_insert key x l'
      else x :: l
  end.

Fixpoint sort_asc {A : Type} (key : A -> Q) (l : list A) : list A :=
  match l with
  | [] => []
  | x :: l' => sort_insert key x (sort_asc key l')
  end.

(** [l.sort(key=key, reverse=reverse)]: with [reverse=True] the list is
    reversed, sorted ascending and reversed again, which keeps elements of
    equal key in their original order. *)
Definition sort {A : Type} (key : A -> Q) (reverse : bool) (l : list A) : list A :=
  if reverse then rev (sort_asc key (rev l)) else sort_asc key l.

End Py.

(** ** The [document_chunks] table *)
Module Db.
Import Py.

(** A Python [float]. *)
Inductive pyfloat : Type :=
| Finite (q : Q)
| PosInf
| NegInf
| NaN.

Definition is_finite (x : pyfloat) : bool :=
  match x with
  | Finite _ => true
  | PosInf | NegInf | NaN => false
  end.

Definition vector := list pyfloat.

Definition all_finite (v : vector) : bool := forallb is_finite v.

(** What the driver hands back for the [embedding] column. *)
Inductive pyvalue : Type :=
| PyList (v : vector)
| PyTuple (v : vector)
| PyIterable (v : vector)
| PyScalar.

Record row : Type := mkRow {
  id : Z;
  chunk_text : pystr;
  embedding : pyvalue;
  filename : pystr;
  split_strategy : pystr;
  created_at : Z
}.

(** The rows in scan order and the next value of [document_chunks_id_seq]. *)
Record table : Type := mkTable {
  rows : list row;
  id_seq : Z
}.

(** The database as the scripts find it: without the table (nothing was
    ever indexed) or with it. *)
Inductive database : Type :=
| Absent
| Present (t : table).

Definition stored_rows (db : database) : list row :=
  match db with
  | Absent => []
  | Present t => rows t
  end.

End Db.

(** ** index_documents.py *)
Module IndexDocuments.
Import Py Db.

(** *** class TextChunker *)

(** The [while] loop of [fixed_size_chunks]; [start] and [chunks] are the
    loop's variables. *)
Fixpoint fixed_size_loop (fuel : nat) (text : pystr) (chunk_size overlap : Z)
  (start : Z) (chunks : list pystr) : option (list pystr) :=
  match fuel with
  | O => None
  | S fuel' =>
      if start <? len text then
        let end_ := start + chunk_size in
        let chunk := slice text start end_ in
        let chunks := chunks ++ [chunk] in
        let start := end_ - overlap in
        if end_ >=? len text then Some chunks
        else fixed_size_loop fuel' text chunk_size overlap start chunks
      else Some chunks
  end.

Definition fixed_size_chunks_fuel (fuel : nat) (text : pystr)
  (chunk_size overlap : Z) : option (list pystr) :=
  fixed_size_loop fuel text chunk_size overlap 0 [].

(** [len(text) + 1] turns of the loop decide the call: it returns within
    that many turns or never ([fixed_size_chunks_None_iff] below). *)
Definition fixed_size_chunks (text : pystr) (chunk_size overlap : Z)
  : option (list pystr) :=
  fixed_size_chunks_fuel (S (length text)) text chunk_size overlap.

(** [[s.strip() for s in sentences if s.strip()]] *)
Definition stripped_nonempty (fragments : list pystr) : list pystr :=
  flat_map (fun s => if truthy (strip s) then [strip s] else []) fragments.

(** The body of the [for] loop of [sentence_based_chunks]. *)
Definition sentence_step (sentences : list pystr) (sentences_per_chunk : Z)
  (chunks : list pystr) (i : Z) : list pystr :=
  let chunk := join (str ". ") (slice sentences i (i + sentences_per_chunk)) in
  if truthy chunk then chunks ++ [chunk ++ str "."] else chunks.

Definition sentence_based_chunks (text : pystr) (sentences_per_chunk : Z)
  : result (list pystr) :=
  let sentences :=
    split (str ".")
      (replace (chr "?") (chr ".") (replace (chr "!") (chr ".") text)) in
  let sentences := stripped_nonempty sentences in
  bind (range 0 (len sentences) sentences_per_chunk) (fun indices =>
  Ok (fold_left (sentence_step sentences sentences_per_chunk) indices [])).

Definition paragraph_based_chunks (text : pystr) : list pystr :=
  let paragraphs := split [chr "010"; chr "010"] text in
  stripped_nonempty paragraphs.

(** *** External collaborators of the indexing run

    The standard-library path functions, the two document readers, the
    embedding service and the database server are outside the repository;
    they are given as oracles. *)
Record externals : Type := mkExternals {
  splitext_lower : pystr -> pystr;        (* os.path.splitext(p)[1].lower() *)
  basename : pystr -> pystr;              (* os.path.basename *)
  extract_text_from_pdf : pystr -> result pystr;
  extract_text_from_docx : pystr -> result pystr;
  embed_content : pystr -> result vector; (* genai.embed_content(...)['embedding'] *)
  connect_ok : bool;                      (* psycopg2.connect succeeds *)
  to_real : pyfloat -> pyfloat;           (* the value a REAL column keeps of a float *)
  insert_ok : bool;                       (* the bulk INSERT and its commit succeed *)
  insert_error : exn;                     (* what a failing bulk INSERT raises *)
  ids_consumed : Z;                       (* ids drawn from the sequence before it fails *)
  now : Z                                 (* CURRENT_TIMESTAMP *)
}.

(** *** class DocumentProcessor *)
Definition extract_text (ext : externals) (file_path : pystr) : result pystr :=
  let file_ext := splitext_lower ext file_path in
  if pystr_eqb file_ext (str ".pdf") then extract_text_from_pdf ext file_path
  else if pystr_eqb file_ext (str ".docx") || pystr_eqb file_ext (str ".doc")
  then extract_text_from_docx ext file_path
  else Raise ValueError.

(** *** class EmbeddingGenerator *)
Definition generate_embedding (ext : externals) (text : pystr) : result vector :=
  match embed_content ext text with
  | Ok v => Ok v
  | Raise _ => Raise ValueError
  end.

(** *** class DatabaseManager *)

(** One element of [chunks_data]. *)
Record chunk_dict : Type := mkChunk {
  cd_chunk_text : pystr;
  cd_embedding : vector;
  cd_filename : pystr;
  cd_split_strategy : pystr
}.

(** [CREATE TABLE IF NOT EXISTS]: a new table is empty and its sequence
    starts at 1. *)
Definition ensure_table_exists (db : database) : table :=
  match db with
  | Absent => {| rows := []; id_seq := 1 |}
  | Present t => t
  end.

Definition delete_all_chunks (db : table) : table :=
  {| rows := []; id_seq := 1 |}.

(** The rows a bulk insert adds: ids from the sequence, one timestamp,
    and of every vector what the [REAL[]] column keeps of it. *)
Fixpoint new_rows (ext : externals) (next_id : Z) (chunks : list chunk_dict)
  : list row :=
  match chunks with
  | [] => []
  | c :: rest =>
      {| id := next_id;
         chunk_text := cd_chunk_text c;
         embedding := PyList (map (to_real ext) (cd_embedding c));
         filename := cd_filename c;
         split_strategy := cd_split_strategy c;
         created_at := now ext |} :: new_rows ext (next_id + 1) rest
  end.

(** One transaction: on failure no row is kept, but the ids already drawn
    from the sequence, at most one per chunk, are not given back. *)
Definition insert_chunks (ext : externals) (chunks : list chunk_dict) (db : table)
  : result unit * table :=
  if insert_ok ext then
    (Ok tt, {| rows := rows db ++ new_rows ext (id_seq db) chunks;
               id_seq := id_seq db + len chunks |})
  else
    (Raise (insert_error ext),
     {| rows := rows db;
        id_seq := id_seq db + Z.max 0 (Z.min (ids_consumed ext) (len chunks)) |}).

(** *** process_document *)

(** How a run ends, with the database as the run leaves it; a run that
    returns has a table. *)
Inductive outcome : Type :=
| Returned (db : table)
| Raised (e : exn) (db : database)
| Hangs (db : database).


(** The chunking step: [None] when [fixed_size_chunks] does not return. *)
Definition make_chunks (split_strategy text : pystr)
  (chunk_size overlap sentences_per_chunk : Z) : option (result (list pystr)) :=
  if pystr_eqb split_strategy (str "fixed_size") then
    option_map Ok (fixed_size_chunks text chunk_size overlap)
  else if pystr_eqb split_strategy (str "sentence") then
    Some (sentence_based_chunks text sentences_per_chunk)
  else if pystr_eqb split_strategy (str "paragraph") then
    Some (Ok (paragraph_based_chunks text))
  else Some (Raise ValueError).

(** The embedding loop, building [chunks_data]. *)
Fixpoint embed_chunks (ext : externals) (filename split_strategy : pystr)
  (chunks : list pystr) (chunks_data : list chunk_dict) : result (list chunk_dict) :=
  match chunks with
  | [] => Ok chunks_data
  | chunk :: rest =>
      match generate_embedding ext chunk with
      | Raise e => Raise e
      | Ok embedding =>
          embed_chunks ext filename split_strategy rest
            (chunks_data ++ [{| cd_chunk_text := chunk;
                                cd_embedding := embedding;
                                cd_filename := filename;
                                cd_split_strategy := split_strategy |}])
      end
  end.

Definition process_document (ext : externals) (db : database) (file_path : pystr)
  (split_strategy : pystr) (chunk_size overlap sentences_per_chunk : Z) : outcome :=
  match extract_text ext file_path with
  | Raise e => Raised e db
  | Ok text =>
      match make_chunks split_strategy text chunk_size overlap sentences_per_chunk with
      | None => Hangs db
      | Some (Raise e) => Raised e db
      | Some (Ok chunks) =>
          let filename := basename ext file_path in
          if connect_ok ext then
            let db := delete_all_chunks (ensure_table_exists db) in
            match embed_chunks ext filename split_strategy chunks [] with
            | Raise e => Raised e (Present db)
            | Ok chunks_data =>
                match insert_chunks ext chunks_data db with
                | (Ok _, db) => Returned db
                | (Raise e, db) => Raised e (Present db)
                end
            end
          else Raised DatabaseError db
      end
  end.

End IndexDocuments.

(** ** search_documents.py *)
Module SearchDocuments.
Import Py Db.

(** The chunk dictionary of one result. *)
Record chunk_info : Type := mkInfo {
  ci_id : Z;
  ci_chunk_text : pystr;
  ci_filename : pystr;
  ci_split_strategy : pystr;
  ci_created_at : Z
}.

Definition hit : Type := (chunk_info * Q)%type.

(** *** class EmbeddingGenerator

    The embedding service (asked with the query intent) and the database
    server are given as oracles. *)
Record search_externals : Type := mkSearchExternals {
  embed_query : pystr -> result vector; (* genai.embed_content(...)['embedding'] *)
  db_reachable : bool                   (* psycopg2.connect succeeds *)
}.

Module EmbeddingGenerator.

Definition generate_embedding (ext : search_externals) (text : pystr)
  : result vector :=
  match embed_query ext text with
  | Ok v => Ok v
  | Raise _ => Raise ValueError
  end.

End EmbeddingGenerator.

(** *** class DatabaseSearch *)
Section DatabaseSearch.

(** The value [sklearn]'s [cosine_similarity] computes on two rows of
    finite floats of the same non-zero width; its floating-point
    arithmetic is not modelled. *)
Variable cosine : vector -> vector -> Q.

(** [_calculate_similarity]: both lists become [1 x n] arrays; the library
    raises [ValueError] when the widths differ or are zero, and when an
    array holds a NaN or an infinity. *)
Definition _calculate_similarity (vec1 vec2 : vector) : result Q :=
  if (len vec1 =? len vec2) && (0 <? len vec1)
     && all_finite vec1 && all_finite vec2
  then Ok (cosine vec1 vec2)
  else Raise ValueError.

(** The conversion of the [embedding] column at the top of the loop. *)
Definition chunk_embedding_of (e : pyvalue) : vector :=
  match e with
  | PyList v | PyTuple v => v
  | PyIterable v => v
  | PyScalar => []
  end.

(** The [for row in rows] loop, building [results]. *)
Fixpoint scan_rows (query_embedding : vector) (rs : list row) (results : list hit)
  : result (list hit) :=
  match rs with
  | [] => Ok results
  | r :: rest =>
      let chunk_embedding := chunk_embedding_of (embedding r) in
      if negb (truthy chunk_embedding) then scan_rows query_embedding rest results
      else
        bind (_calculate_similarity query_embedding chunk_embedding) (fun similarity =>
        scan_rows query_embedding rest
          (results ++ [({| ci_id := id r;
                           ci_chunk_text := chunk_text r;
                           ci_filename := filename r;
                           ci_split_strategy := split_strategy r;
                           ci_created_at := created_at r |}, similarity)]))
  end.

(** The [SELECT] fails on a database without the table: this script never
    creates it. *)
Definition fetchall (db : database) : result (list row) :=
  match db with
  | Absent => Raise DatabaseError
  | Present t => Ok (rows t)
  end.

Definition search_similar_chunks (db : database) (query_embedding : vector)
  (top_k : Z) : result (list hit) :=
  bind (fetchall db) (fun rows =>
  bind (scan_rows query_embedding rows []) (fun results =>
  let results := sort snd true results in
  Ok (slice_to results top_k))).

(** *** search_documents *)

(** One printed result; the similarity is kept as the score itself, its
    four-decimal rendering is not modelled. *)
Record shown : Type := mkShown {
  sh_number : Z;
  sh_similarity : Q;
  sh_filename : pystr;
  sh_split_strategy : pystr;
  sh_id : Z;
  sh_chunk : pystr
}.

(** What the function prints after the two progress lines. *)
Inductive report : Type :=
| NoResults
| Found (entries : list shown).

(** The chunk text as printed: the first 500 characters and an ellipsis
    when the text is longer than that. *)
Definition preview (chunk_text : pystr) : pystr :=
  if len chunk_text >? 500 then slice_to chunk_text 500 ++ str "..."
  else chunk_text.

(** [enumerate(l, start)] *)
Fixpoint enumerate {A : Type} (l : list A) (start : Z) : list (Z * A) :=
  match l with
  | [] => []
  | x :: rest => (start, x) :: enumerate rest (start + 1)
  end.

Definition show_hit (entry : Z * hit) : shown :=
  let '(i, (chunk_data, similarity)) := entry in
  {| sh_number := i;
     sh_similarity := similarity;
     sh_filename := ci_filename chunk_data;
     sh_split_strategy := ci_split_strategy chunk_data;
     sh_id := ci_id chunk_data;
     sh_chunk := preview (ci_chunk_text chunk_data) |}.

Definition search_documents (ext : search_externals) (db : database)
  (query : pystr) (top_k : Z) : result report :=
  bind (EmbeddingGenerator.generate_embedding ext query) (fun query_embedding =>
  if db_reachable ext then
    bind (search_similar_chunks db query_embedding top_k) (fun results =>
    if negb (truthy results) then Ok NoResults
    else Ok (Found (map show_hit (enumerate results 1))))
  else Raise DatabaseError).

End DatabaseSearch.

End SearchDocuments.

(** ** The behaviour the specification words, for comparison *)
Module Spec.
Import Py Db IndexDocuments SearchDocuments.

(** Chunks put back together: the first chunk whole, every later chunk
    without its leading [overlap] characters. *)
Definition reassemble (overlap : Z) (chunks : list pystr) : pystr :=
  match chunks with
  | [] => []
  | first :: later => first ++ concat (map (skipn (Z.to_nat overlap)) later)
  end.

(** Sentence chunking as the specification words it. *)
Definition normalize (text : pystr) : pystr :=
  map (fun c => if N.eqb c (chr "!") || N.eqb c (chr "?") then chr "." else c) text.

Fixpoint split_on (sep : char) (s : pystr) : list pystr :=
  match s with
  | [] => [[]]
  | c :: s' =>
      if N.eqb c sep then [] :: split_on sep s'
      else match split_on sep s' with
           | [] => [[c]]
           | w :: ws => (c :: w) :: ws
           end
  end.

Fixpoint batches_fuel {A : Type} (fuel k : nat) (l : list A) : list (list A) :=
  match fuel with
  | O => []
  | S fuel' =>
      match l with
      | [] => []
      | _ :: _ => firstn k l :: batches_fuel fuel' k (skipn k l)
      end
  end.

(** Consecutive batches of [k] elements, the last one possibly shorter. *)
Definition batches {A : Type} (k : nat) (l : list A) : list (list A) :=
  batches_fuel (length l) k l.

Definition sentences_of (text : pystr) : list pystr :=
  filter truthy (map strip (split_on (chr ".") (normalize text))).

Definition sentence_based (text : pystr) (sentences_per_chunk : nat) : list pystr :=
  map (fun batch => join (str ". ") batch ++ str ".")
      (batches sentences_per_chunk (sentences_of text)).

Definition whitespace_only (text : pystr) : Prop :=
  forallb isspace text = true.

Definition ends_with (c : char) (s : pystr) : Prop :=
  exists body, s = body ++ [c].

(** Indexing: what a completed embedding loop has appended to
    [chunks_data]. *)
Definition embedded (ext : externals) (fname strategy : pystr) (d : chunk_dict)
  : Prop :=
  generate_embedding ext (cd_chunk_text d) = Ok (cd_embedding d) /\
  cd_filename d = fname /\ cd_split_strategy d = strategy.

(** A stored row carries the vector the embedding service returned for
    its text, and the file name and strategy of the run. *)
Definition row_embedded (ext : externals) (fname strategy : pystr) (r : row)
  : Prop :=
  (exists v, embedding r = PyList (map (to_real ext) v) /\
             generate_embedding ext (chunk_text r) = Ok v) /\
  filename r = fname /\ split_strategy r = strategy.

(** The same collaborators at another time. *)
Definition at_time (ext : externals) (stamp : Z) : externals :=
  {| splitext_lower := splitext_lower ext;
     basename := basename ext;
     extract_text_from_pdf := extract_text_from_pdf ext;
     extract_text_from_docx := extract_text_from_docx ext;
     embed_content := embed_content ext;
     connect_ok := connect_ok ext;
     to_real := to_real ext;
     insert_ok := insert_ok ext;
     insert_error := insert_error ext;
     ids_consumed := ids_consumed ext;
     now := stamp |}.

(** A row with another timestamp. *)
Definition restamp (stamp : Z) (r : row) : row :=
  {| id := id r;
     chunk_text := chunk_text r;
     embedding := embedding r;
     filename := filename r;
     split_strategy := split_strategy r;
     created_at := stamp |}.

(** Ranking. *)
Definition usable (r : row) : bool :=
  truthy (chunk_embedding_of (embedding r)).

Definition info_of (r : row) : chunk_info :=
  {| ci_id := id r;
     ci_chunk_text := chunk_text r;
     ci_filename := filename r;
     ci_split_strategy := split_strategy r;
     ci_created_at := created_at r |}.

(** The candidates with a non-empty vector, scored, in scan order. *)
Definition scored (cosine : vector -> vector -> Q) (query : vector)
  (rs : list row) : list hit :=
  map (fun r => (info_of r, cosine query (chunk_embedding_of (embedding r))))
      (filter usable rs).

Definition same_width (query : vector) (r : row) : Prop :=
  length (chunk_embedding_of (embedding r)) = length query.

Definition descending (l : list hit) : Prop :=
  StronglySorted (fun a b => (snd b <= snd a)%Q) l.

(** The hits whose score equals [s], in the order of [l]. *)
Definition with_score (s : Q) (l : list hit) : list hit :=
  filter (fun h => Qeq_bool (snd h) s) l.

Definition prefix_of {A : Type} (l1 l2 : list A) : Prop :=
  exists rest, l2 = l1 ++ rest.

(** The query and the vector of the row can be compared: same width, no
    NaN, no infinity. *)
Definition scorable (query : vector) (r : row) : Prop :=
  same_width query r /\ all_finite query = true /\
  all_finite (chunk_embedding_of (embedding r)) = true.

(** A usable row the query cannot be compared with. *)
Definition unscorable (query : vector) (r : row) : Prop :=
  usable r = true /\
  (~ same_width query r \/ all_finite query = false \/
   all_finite (chunk_embedding_of (embedding r)) = false).

(** The printed entry [e] shows the result [h] as number [i]: its score,
    file name, strategy and id, and its text, whole when it has at most
    500 characters and else its first 500 characters and three dots. *)
Definition shows (i : Z) (h : hit) (e : shown) : Prop :=
  sh_number e = i /\
  sh_similarity e = snd h /\
  sh_filename e = ci_filename (fst h) /\
  sh_split_strategy e = ci_split_strategy (fst h) /\
  sh_id e = ci_id (fst h) /\
  (len (ci_chunk_text (fst h)) <= 500 -> sh_chunk e = ci_chunk_text (fst h)) /\
  (500 < len (ci_chunk_text (fst h)) ->
   sh_chunk e = firstn 500 (ci_chunk_text (fst h)) ++ str "...").

(** [entries] shows [results] in order, numbered from [i]. *)
Fixpoint shows_all (i : Z) (results : list hit) (entries : list shown) : Prop :=
  match results, entries with
  | [], [] => True
  | h :: results', e :: entries' => shows i h e /\ shows_all (i + 1) results' entries'
  | _, _ => False
  end.

(** Chunking. *)

(** The number of fixed-size chunks of a text of [n] characters. *)
Definition chunk_count (n chunk_size overlap : Z) : Z :=
  if n <=? 0 then 0
  else if n <=? chunk_size then 1
  else (n - chunk_size + (chunk_size - overlap) - 1) / (chunk_size - overlap) + 1.

(** Non-empty, with no whitespace at either end. *)
Definition trimmed (s : pystr) : Prop :=
  s <> [] /\
  (forall c rest, s = c :: rest -> isspace c = false) /\
  (forall body c, s = body ++ [c] -> isspace c = false).

(** [sep] occurs in [s]. *)
Definition occurs (sep s : pystr) : Prop :=
  exists before after, s = before ++ sep ++ after.

Definition blank_line : pystr := [chr "010"; chr "010"].

(** [sep in s], decided. *)
Fixpoint contains (sep s : pystr) : bool :=
  starts_with sep s ||
  match s with
  | [] => false
  | _ :: s' => contains sep s'
  end.

End Spec.

(** ** Concrete collaborators for the examples *)
Module Demo.
Import Py Db IndexDocuments SearchDocuments.

(** A reader that yields [text] for every path and an embedding service
    given by [embed]; the database is reachable and inserts succeed. *)
Definition externals_for (text : pystr) (embed : pystr -> result vector)
  : externals :=
  {| splitext_lower := fun _ => str ".pdf";
     basename := fun p => p;
     extract_text_from_pdf := fun _ => Ok text;
     extract_text_from_docx := fun _ => Ok text;
     embed_content := embed;
     connect_ok := true;
     to_real := fun x => x;
     insert_ok := true;
     insert_error := DatabaseError;
     ids_consumed := 0;
     now := 0 |}.


Definition embed_ok (chunk : pystr) : result vector := Ok [Finite 1; Finite 0].

Definition stored (i : Z) (t : string) (v : vector) : row :=
  {| id := i; chunk_text := str t; embedding := PyList v;
     filename := str "old.pdf"; split_strategy := str "paragraph";
     created_at := 0 |}.

(** A table holding one earlier document. *)
Definition old_table : table :=
  {| rows := [stored 1 "old" [Finite 0; Finite 1]]; id_seq := 2 |}.

(** The dot product: on vectors with a single entry 1 and zeros elsewhere
    it is the cosine exactly. *)
Fixpoint dot (a b : vector) : Q :=
  match a, b with
  | Finite x :: a', Finite y :: b' => (x * y + dot a' b')%Q
  | _, _ => 0%Q
  end.

Definition three_rows : table :=
  {| rows := [stored 1 "first" [Finite 1; Finite 0];
              stored 2 "second" [Finite 0; Finite 1];
              stored 3 "third" [Finite 1; Finite 0]];
     id_seq := 4 |}.

(** A table whose second row has a three-entry vector. *)
Definition mixed_widths : table :=
  {| rows := [stored 1 "first" [Finite 1; Finite 0];
              stored 2 "second" [Finite 0; Finite 1; Finite 0]];
     id_seq := 3 |}.

(** A table whose second row has an empty vector. *)
Definition with_blank : table :=
  {| rows := [stored 1 "first" [Finite 1; Finite 0];
              stored 2 "blank" [];
              stored 3 "third" [Finite 0; Finite 1]];
     id_seq := 4 |}.

Definition empty_table : table := {| rows := []; id_seq := 1 |}.

(** A table whose second row has a NaN in a vector of the right width. *)
Definition with_nan : table :=
  {| rows := [stored 1 "first" [Finite 1; Finite 0];
              stored 2 "second" [NaN; Finite 1]];
     id_seq := 3 |}.

(** An embedding service for queries and a reachable database. *)
Definition search_oracle : search_externals :=
  {| embed_query := fun _ => Ok [Finite 1; Finite 0]; db_reachable := true |}.

(** An embedding service that is down. *)
Definition search_oracle_down : search_externals :=
  {| embed_query := fun _ => Raise DatabaseError; db_reachable := true |}.

(** No file type, a table that cannot be reached, an insert that fails. *)
Definition externals_txt : externals :=
  {| splitext_lower := fun _ => str ".txt";
     basename := fun p => p;
     extract_text_from_pdf := fun _ => Ok (str "abcd");
     extract_text_from_docx := fun _ => Ok (str "abcd");
     embed_content := embed_ok;
     connect_ok := true;
     to_real := fun x => x;
     insert_ok := true;
     insert_error := DatabaseError;
     ids_consumed := 0;
     now := 0 |}.

Definition externals_offline : externals :=
  {| splitext_lower := fun _ => str ".docx";
     basename := fun p => p;
     extract_text_from_pdf := fun _ => Ok (str "abcd");
     extract_text_from_docx := fun _ => Ok (str "abcd");
     embed_content := embed_ok;
     connect_ok := false;
     to_real := fun x => x;
     insert_ok := true;
     insert_error := DatabaseError;
     ids_consumed := 0;
     now := 0 |}.

Definition externals_insert_fails : externals :=
  {| splitext_lower := fun _ => str ".doc";
     basename := fun p => p;
     extract_text_from_pdf := fun _ => Ok (str "abcd");
     extract_text_from_docx := fun _ => Ok (str "abcd");
     embed_content := embed_ok;
     connect_ok := true;
     to_real := fun x => x;
     insert_ok := false;
     insert_error := DatabaseError;
     ids_consumed := 1;
     now := 0 |}.

Definition hit_of (i : Z) (t : string) (score : Q) : hit :=
  ({| ci_id := i; ci_chunk_text := str t; ci_filename := str "old.pdf";
      ci_split_strategy := str "paragraph"; ci_created_at := 0 |}, score).

End Demo.

(** * Properties *)

Import Py Db Spec.

(** ** Slices *)
Section SliceFacts.
Context {A : Type}.
Implicit Types l : list A.

Lemma len_nonneg l : 0 <= len l.
Proof. unfold len. lia. Qed.

Lemma slice_index_range n i : 0 <= n -> 0 <= slice_index n i <= n.
Proof. intros Hn. unfold slice_index. destruct (Z.ltb_spec i 0); lia. Qed.

Lemma len_slice l a b :
  len (slice l a b) = Z.max 0 (slice_index (len l) b - slice_index (len l) a).
Proof.
  pose proof (slice_index_range (len l) a (len_nonneg l)) as Ha.
  pose proof (slice_index_range (len l) b (len_nonneg l)) as Hb.
  unfold slice. unfold len in *.
  rewrite length_firstn, length_skipn. lia.
Qed.

(** A slice that starts inside the list and stops before its end. *)
Lemma slice_inner l a b :
  0 <= a -> a <= b -> b <= len l ->
  slice l a b = firstn (Z.to_nat (b - a)) (skipn (Z.to_nat a) l).
Proof.
  intros H0 Hab Hb. unfold slice, slice_index.
  destruct (Z.ltb_spec a 0); [lia|]. destruct (Z.ltb_spec b 0); [lia|].
  rewrite !Z.min_l by lia. reflexivity.
Qed.

(** A slice that starts inside the list and stops at or past its end. *)
Lemma slice_tail l a b :
  0 <= a -> len l <= b -> slice l a b = skipn (Z.to_nat a) l.
Proof.
  intros H0 Hb. pose proof (len_nonneg l) as Hl.
  unfold slice, slice_index.
  destruct (Z.ltb_spec a 0); [lia|]. destruct (Z.ltb_spec b 0); [lia|].
  rewrite (Z.min_r b) by lia.
  destruct (Z.le_gt_cases a (len l)).
  - rewrite Z.min_l by lia.
    apply firstn_all2. rewrite length_skipn. unfold len in *. lia.
  - rewrite Z.min_r by lia. rewrite Z.sub_diag. simpl firstn.
    symmetry. apply skipn_all2. unfold len in *. lia.
Qed.

Lemma slice_to_nonneg l k : 0 <= k -> slice_to l k = firstn (Z.to_nat k) l.
Proof.
  intros Hk. unfold slice_to.
  destruct (Z.le_gt_cases k (len l)).
  - rewrite slice_inner by lia. rewrite Z.sub_0_r. reflexivity.
  - rewrite slice_tail by lia. simpl. symmetry.
    apply firstn_all2. unfold len in *. lia.
Qed.

Lemma slice_to_neg l k :
  k < 0 -> slice_to l k = firstn (Z.to_nat (len l + k)) l.
Proof.
  intros Hk. pose proof (len_nonneg l) as Hl.
  unfold slice_to, slice, slice_index.
  destruct (Z.ltb_spec k 0); [|lia].
  change (0 <? 0) with false. cbv iota.
  rewrite (Z.min_l 0) by lia. simpl skipn.
  f_equal. lia.
Qed.

End SliceFacts.

(** ** Fixed-size chunking *)
Section FixedSize.
Import IndexDocuments.

Variable text : pystr.
Variables chunk_size overlap : Z.

Local Abbreviation loop fuel := (fixed_size_loop fuel text chunk_size overlap).

(** The chunks collected so far are only ever extended. *)
Lemma fixed_size_loop_acc fuel : forall start chunks,
  loop fuel start chunks = option_map (app chunks) (loop fuel start []).
Proof.
  induction fuel as [|fuel IH]; intros start chunks; simpl; [reflexivity|].
  destruct (start <? len text); [|simpl; now rewrite app_nil_r].
  destruct (start + chunk_size >=? len text); [reflexivity|].
  rewrite IH. rewrite (IH _ [_]).
  destruct (loop fuel _ []); simpl; [|reflexivity].
  now rewrite <- app_assoc.
Qed.

(** One turn of the loop, without the accumulator. *)
Lemma fixed_size_loop_step fuel start :
  loop (S fuel) start [] =
    if start <? len text then
      if start + chunk_size >=? len text
      then Some [slice text start (start + chunk_size)]
      else option_map (cons (slice text start (start + chunk_size)))
             (loop fuel (start + chunk_size - overlap) [])
    else Some [].
Proof.
  simpl. destruct (start <? len text); [|reflexivity].
  destruct (start + chunk_size >=? len text); [reflexivity|].
  now rewrite fixed_size_loop_acc.
Qed.

(** More fuel does not change a result. *)
Lemma fixed_size_loop_more fuel : forall start chunks r,
  loop fuel start chunks = Some r -> loop (S fuel) start chunks = Some r.
Proof.
  induction fuel as [|fuel IH]; intros start chunks r H; [discriminate|].
  simpl in H. change (loop (S (S fuel)) start chunks) with
    (if start <? len text then
       if start + chunk_size >=? len text
       then Some (chunks ++ [slice text start (start + chunk_size)])
       else loop (S fuel) (start + chunk_size - overlap)
              (chunks ++ [slice text start (start + chunk_size)])
     else Some chunks).
  destruct (start <? len text); [|exact H].
  destruct (start + chunk_size >=? len text); [exact H|].
  now apply IH.
Qed.

Lemma fixed_size_loop_mono fuel fuel' start chunks r :
  (fuel <= fuel')%nat ->
  loop fuel start chunks = Some r -> loop fuel' start chunks = Some r.
Proof.
  induction 1 as [|m _ IH]; intros H; [exact H|].
  apply fixed_size_loop_more. now apply IH.
Qed.

(** With a positive advance the loop returns once the fuel exceeds the
    distance from [start] to the end of the text. *)
Lemma fixed_size_loop_returns fuel : forall start chunks,
  overlap < chunk_size ->
  (Z.to_nat (len text - start) < fuel)%nat ->
  exists r, loop fuel start chunks = Some r.
Proof.
  induction fuel as [|fuel IH]; intros start chunks Hadv Hfuel; [lia|].
  simpl. destruct (Z.ltb_spec start (len text)); [|eauto].
  destruct (start + chunk_size >=? len text); [eauto|].
  apply IH; [assumption|lia].
Qed.

(** With a non-positive advance, once the loop is at or before offset 0
    with a slice that stops short of the end, it never returns. *)
Lemma fixed_size_loop_stuck fuel : forall start chunks,
  chunk_size <= overlap -> start <= 0 -> 0 < len text ->
  start + chunk_size < len text ->
  loop fuel start chunks = None.
Proof.
  induction fuel as [|fuel IH]; intros start chunks Hadv Hs Hl He; [reflexivity|].
  simpl. destruct (Z.ltb_spec start (len text)); [|lia].
  destruct (Z.geb_spec (start + chunk_size) (len text)); [lia|].
  apply IH; lia.
Qed.

(** [fixed_size_chunks] decides whether the loop returns. *)
Lemma fixed_size_chunks_None_iff :
  fixed_size_chunks text chunk_size overlap = None <->
  forall fuel, fixed_size_chunks_fuel fuel text chunk_size overlap = None.
Proof.
  split; [|intros H; apply H].
  unfold fixed_size_chunks, fixed_size_chunks_fuel. intros H fuel.
  destruct (Z.lt_ge_cases overlap chunk_size) as [Hadv|Hadv].
  - destruct (fixed_size_loop_returns (S (length text)) 0 [] Hadv) as [r Hr].
    + unfold len. lia.
    + congruence.
  - rewrite fixed_size_loop_step in H.
    destruct (Z.ltb_spec 0 (len text)); [|discriminate].
    destruct (Z.geb_spec (0 + chunk_size) (len text)); [discriminate|].
    apply fixed_size_loop_stuck; lia.
Qed.

Lemma fixed_size_chunks_Some_iff r :
  fixed_size_chunks text chunk_size overlap = Some r <->
  exists fuel, fixed_size_chunks_fuel fuel text chunk_size overlap = Some r.
Proof.
  split; [intros H; eexists; exact H|].
  intros [fuel H]. unfold fixed_size_chunks.
  destruct (fixed_size_chunks_fuel (S (length text)) text chunk_size overlap)
    as [r'|] eqn:E.
  - unfold fixed_size_chunks_fuel in *.
    destruct (Nat.le_ge_cases fuel (S (length text))) as [Hle|Hle].
    + rewrite (fixed_size_loop_mono _ _ _ _ _ Hle H) in E. exact (eq_sym E).
    + rewrite (fixed_size_loop_mono _ _ _ _ _ Hle E) in H. exact H.
  - pose proof (proj1 fixed_size_chunks_None_iff E fuel). congruence.
Qed.

(** *** Valid configurations: [0 <= overlap < chunk_size] *)

Hypothesis valid : 0 <= overlap < chunk_size.

Lemma fixed_size_chunks_returns :
  exists chunks, fixed_size_chunks text chunk_size overlap = Some chunks.
Proof.
  apply fixed_size_loop_returns; [lia|]. unfold len. lia.
Qed.

Lemma fixed_size_loop_bounded fuel : forall start r,
  0 <= start -> loop fuel start [] = Some r ->
  Forall (fun c => len c <= chunk_size) r.
Proof.
  induction fuel as [|fuel IH]; intros start r Hs H; [discriminate|].
  rewrite fixed_size_loop_step in H.
  assert (Hc : len (slice text start (start + chunk_size)) <= chunk_size).
  { rewrite len_slice. unfold slice_index.
    destruct (Z.ltb_spec (start + chunk_size) 0); [lia|].
    destruct (Z.ltb_spec start 0); lia. }
  destruct (start <? len text); [|injection H as <-; constructor].
  destruct (start + chunk_size >=? len text).
  - injection H as <-. constructor; [exact Hc|constructor].
  - destruct (loop fuel _ []) as [r'|] eqn:E; [|discriminate].
    injection H as <-. constructor; [exact Hc|].
    apply (IH (start + chunk_size - overlap)); [lia|exact E].
Qed.

(** From an offset inside the text the loop yields full-size chunks
    followed by one last, non-empty chunk. *)
Lemma fixed_size_loop_shape fuel : forall start r,
  0 <= start < len text -> loop fuel start [] = Some r ->
  exists full last,
    r = full ++ [last] /\
    Forall (fun c => len c = chunk_size) full /\ 0 < len last.
Proof.
  induction fuel as [|fuel IH]; intros start r Hs H; [discriminate|].
  rewrite fixed_size_loop_step in H.
  destruct (Z.ltb_spec start (len text)); [|lia].
  destruct (Z.geb_spec (start + chunk_size) (len text)).
  - injection H as <-. exists [], (slice text start (start + chunk_size)).
    split; [reflexivity|]. split; [constructor|].
    rewrite slice_tail by lia. unfold len in *. rewrite length_skipn. lia.
  - destruct (loop fuel _ []) as [r'|] eqn:E; [|discriminate].
    injection H as <-.
    destruct (IH (start + chunk_size - overlap) r') as (full & last & -> & Hf & Hl);
      [lia|exact E|].
    exists (slice text start (start + chunk_size) :: full), last.
    split; [reflexivity|]. split; [|exact Hl].
    constructor; [|exact Hf].
    rewrite slice_inner by lia. unfold len in *.
    rewrite length_firstn, length_skipn. lia.
Qed.

(** Dropping the first [overlap] characters of every chunk produced from
    [start] on leaves the text from [start + overlap] on. *)
Lemma fixed_size_loop_concat fuel : forall start r,
  0 <= start -> loop fuel start [] = Some r ->
  concat (map (skipn (Z.to_nat overlap)) r) = skipn (Z.to_nat (start + overlap)) text.
Proof.
  induction fuel as [|fuel IH]; intros start r Hs H; [discriminate|].
  rewrite fixed_size_loop_step in H.
  destruct (Z.ltb_spec start (len text)).
  - destruct (Z.geb_spec (start + chunk_size) (len text)).
    + injection H as <-. simpl. rewrite app_nil_r.
      rewrite slice_tail by lia. rewrite skipn_skipn. f_equal. lia.
    + destruct (loop fuel _ []) as [r'|] eqn:E; [|discriminate].
      injection H as <-. simpl.
      rewrite (IH (start + chunk_size - overlap) r') by (lia || exact E).
      rewrite slice_inner by lia.
      rewrite skipn_firstn_comm, skipn_skipn.
      replace (Z.to_nat overlap + Z.to_nat start)%nat
        with (Z.to_nat (start + overlap)) by lia.
      replace (Z.to_nat (start + chunk_size - overlap + overlap))
        with (Z.to_nat (start + chunk_size - start - overlap)
              + Z.to_nat (start + overlap))%nat by lia.
      rewrite <- skipn_skipn.
      replace (Z.to_nat (start + chunk_size - start) - Z.to_nat overlap)%nat
        with (Z.to_nat (start + chunk_size - start - overlap)) by lia.
      apply firstn_skipn.
  - injection H as <-. simpl. symmetry. apply skipn_all2.
    unfold len in *. lia.
Qed.

End FixedSize.

Section FixedSizeClaims.
Import IndexDocuments.

(** The chunking step of a run hangs only in [fixed_size_chunks]. *)
Lemma make_chunks_None strategy text chunk_size overlap spc :
  make_chunks strategy text chunk_size overlap spc = None ->
  fixed_size_chunks text chunk_size overlap = None.
Proof.
  unfold make_chunks. intros H.
  destruct (pystr_eqb strategy (str "fixed_size")).
  - destruct (fixed_size_chunks text chunk_size overlap); [discriminate|reflexivity].
  - destruct (pystr_eqb strategy (str "sentence")); [discriminate|].
    destruct (pystr_eqb strategy (str "paragraph")); discriminate.
Qed.

Lemma process_document_Hangs ext db fp strategy chunk_size overlap spc db' :
  process_document ext db fp strategy chunk_size overlap spc = Hangs db' ->
  exists text, extract_text ext fp = Ok text /\
               fixed_size_chunks text chunk_size overlap = None.
Proof.
  unfold process_document. intros H.
  destruct (extract_text ext fp) as [text|e]; [|discriminate].
  exists text. split; [reflexivity|].
  destruct (make_chunks strategy text chunk_size overlap spc) as [[chunks|e]|] eqn:E.
  - destruct (connect_ok ext); [|discriminate].
    destruct (embed_chunks _ _ _ _ _); [|discriminate].
    destruct (insert_chunks _ _ _) as [[u|e] d]; discriminate.
  - discriminate.
  - eapply make_chunks_None, E.
Qed.

(** Fixed-size chunking returns for every text whenever
    [overlap < chunk_size], within [len(text) + 1] turns of its loop, and a
    run of [process_document] with such a configuration does not hang. *)
Lemma fixed_size_chunks_terminates text chunk_size overlap :
  overlap < chunk_size ->
  (exists chunks,
     fixed_size_chunks text chunk_size overlap = Some chunks /\
     forall fuel, (length text < fuel)%nat ->
       fixed_size_chunks_fuel fuel text chunk_size overlap = Some chunks) /\
  (forall ext db fp strategy spc db',
     process_document ext db fp strategy chunk_size overlap spc <> Hangs db').
Proof.
  intros Hadv. split.
  - destruct (fixed_size_loop_returns text chunk_size overlap (S (length text)) 0 [])
      as [chunks Hc]; [exact Hadv|unfold len; lia|].
    exists chunks. split; [exact Hc|].
    intros fuel Hf. unfold fixed_size_chunks_fuel.
    eapply fixed_size_loop_mono; [|exact Hc]. lia.
  - intros ext db fp strategy spc db' H.
    apply process_document_Hangs in H as (t & _ & Hn).
    destruct (fixed_size_loop_returns t chunk_size overlap (S (length t)) 0 [])
      as [chunks Hc]; [exact Hadv|unfold len; lia|].
    unfold fixed_size_chunks, fixed_size_chunks_fuel in Hn. congruence.
Qed.

(** C4: the code does not do what the claim says.  With
    [chunk_size = overlap = 1] and the text ["ab"] nothing is rejected:
    the run enters the chunker, whose loop returns for no amount of fuel,
    and the run hangs with the database as it was. *)
Theorem fixed_size_overlap_not_rejected :
  process_document (Demo.externals_for (str "ab") Demo.embed_ok)
    (Present Demo.old_table) (str "doc.pdf") (str "fixed_size") 1 1 5
    = Hangs (Present Demo.old_table) /\
  forall fuel, fixed_size_chunks_fuel fuel (str "ab") 1 1 = None.
Proof.
  split; [reflexivity|].
  apply fixed_size_chunks_None_iff. reflexivity.
Qed.

(** C5: for [chunk_size > overlap >= 0] the chunks, the first whole and
    every later one without its leading [overlap] characters, concatenate
    to the original text. *)
Theorem fixed_size_chunks_reassemble text chunk_size overlap :
  0 <= overlap < chunk_size ->
  exists chunks,
    fixed_size_chunks text chunk_size overlap = Some chunks /\
    reassemble overlap chunks = text.
Proof.
  intros Hv.
  destruct (fixed_size_chunks_returns text chunk_size overlap Hv) as [chunks Hc].
  exists chunks. split; [exact Hc|].
  unfold fixed_size_chunks, fixed_size_chunks_fuel in Hc.
  rewrite fixed_size_loop_step in Hc.
  destruct (Z.ltb_spec 0 (len text)) as [Hl|Hl].
  - destruct (Z.geb_spec (0 + chunk_size) (len text)).
    + injection Hc as <-. simpl. rewrite app_nil_r.
      now rewrite slice_tail by lia.
    + destruct (fixed_size_loop _ _ _ _ _ []) as [later|] eqn:E; [|discriminate].
      injection Hc as <-. simpl.
      rewrite (fixed_size_loop_concat text chunk_size overlap Hv _
                 (0 + chunk_size - overlap) later) by (lia || exact E).
      rewrite slice_inner by lia.
      replace (Z.to_nat (0 + chunk_size - overlap + overlap))
        with (Z.to_nat (0 + chunk_size - 0)) by lia.
      simpl skipn. apply firstn_skipn.
  - injection Hc as <-. simpl. unfold len in Hl.
    destruct text; [reflexivity|simpl in Hl; lia].
Qed.

Lemma fixed_size_chunks_reassemble_witness :
  exists chunks,
    fixed_size_chunks (str "abcdefghij") 4 1 = Some chunks /\
    reassemble 1 chunks = str "abcdefghij".
Proof. apply fixed_size_chunks_reassemble. lia. Defined.

(** C6: for [chunk_size > overlap >= 0] the result is non-empty exactly
    when the text is, and no chunk is longer than [chunk_size]. *)
Theorem fixed_size_chunks_nonempty_bounded text chunk_size overlap :
  0 <= overlap < chunk_size ->
  exists chunks,
    fixed_size_chunks text chunk_size overlap = Some chunks /\
    (chunks <> [] <-> text <> []) /\
    (text = [] -> chunks = []) /\
    Forall (fun chunk => len chunk <= chunk_size) chunks.
Proof.
  intros Hv.
  destruct (fixed_size_chunks_returns text chunk_size overlap Hv) as [chunks Hc].
  exists chunks. split; [exact Hc|].
  unfold fixed_size_chunks, fixed_size_chunks_fuel in Hc.
  pose proof (fixed_size_loop_bounded text chunk_size overlap Hv _ 0 chunks
                (Z.le_refl 0) Hc) as Hb.
  destruct text as [|c t].
  - simpl in Hc. injection Hc as <-. repeat split; solve [tauto | constructor].
  - destruct (fixed_size_loop_shape (c :: t) chunk_size overlap Hv
                (S (length (c :: t))) 0 chunks)
      as (full & last & -> & _ & _); [unfold len; simpl; lia|exact Hc|].
    repeat split; try discriminate; try exact Hb.
    intros _. now destruct full.
Qed.

Lemma fixed_size_chunks_nonempty_bounded_witness :
  exists chunks,
    fixed_size_chunks (str "abcdefghij") 4 1 = Some chunks /\
    (chunks <> [] <-> str "abcdefghij" <> []) /\
    (str "abcdefghij" = [] -> chunks = []) /\
    Forall (fun chunk => len chunk <= 4) chunks.
Proof. apply fixed_size_chunks_nonempty_bounded. lia. Defined.

(** C10: for a non-empty text and [0 <= overlap < chunk_size] every chunk
    but the last has exactly [chunk_size] characters and the last chunk is
    non-empty. *)
Theorem fixed_size_chunks_full_but_last text chunk_size overlap :
  text <> [] -> 0 <= overlap < chunk_size ->
  exists full last,
    fixed_size_chunks text chunk_size overlap = Some (full ++ [last]) /\
    Forall (fun chunk => len chunk = chunk_size) full /\
    last <> [].
Proof.
  intros Ht Hv.
  destruct (fixed_size_chunks_returns text chunk_size overlap Hv) as [chunks Hc].
  destruct (fixed_size_loop_shape text chunk_size overlap Hv
              (S (length text)) 0 chunks)
    as (full & last & -> & Hf & Hl).
  - unfold len. destruct text; [contradiction|simpl; lia].
  - exact Hc.
  - exists full, last. split; [exact Hc|]. split; [exact Hf|].
    intros ->. unfold len in Hl. simpl in Hl. lia.
Qed.

Lemma fixed_size_chunks_full_but_last_witness :
  exists full last,
    fixed_size_chunks (str "abcdefghij") 4 1 = Some (full ++ [last]) /\
    Forall (fun chunk => len chunk = 4) full /\
    last <> [].
Proof.
  apply fixed_size_chunks_full_but_last; [discriminate|lia].
Defined.

End FixedSizeClaims.

(** ** The indexing run and the table *)
Section Indexing.
Import IndexDocuments.

Variable ext : externals.


Lemma embed_chunks_Ok fname strategy chunks : forall acc data,
  embed_chunks ext fname strategy chunks acc = Ok data ->
  exists fresh, data = acc ++ fresh /\
                map cd_chunk_text fresh = chunks /\
                Forall (embedded ext fname strategy) fresh.
Proof.
  induction chunks as [|chunk rest IH]; intros acc data H; simpl in H.
  - injection H as <-. exists []. rewrite app_nil_r. repeat split. constructor.
  - destruct (generate_embedding ext chunk) as [v|e] eqn:E; [|discriminate].
    apply IH in H as (fresh & -> & Hm & Hf).
    eexists (_ :: fresh). rewrite <- app_assoc. split; [reflexivity|].
    split; [simpl; now rewrite Hm|].
    constructor; [|exact Hf]. now repeat split.
Qed.


Lemma new_rows_text next data :
  map chunk_text (new_rows ext next data) = map cd_chunk_text data.
Proof.
  revert next. induction data as [|d data IH]; intros next; simpl; [reflexivity|].
  now rewrite IH.
Qed.

Lemma new_rows_embedded fname strategy data : forall next,
  Forall (embedded ext fname strategy) data ->
  Forall (row_embedded ext fname strategy) (new_rows ext next data).
Proof.
  induction data as [|d data IH]; intros next H; simpl; [constructor|].
  inversion H as [|? ? (Hd & Hn & Hs) Hrest]; subst.
  constructor; [|now apply IH].
  split; [|now split]. eexists. split; [reflexivity|exact Hd].
Qed.


End Indexing.



(** ** Sentence chunking *)
Section Sentences.
Import IndexDocuments.

Lemma slice_nonneg {A : Type} (l : list A) a b :
  0 <= a <= b ->
  slice l a b = firstn (Z.to_nat (b - a)) (skipn (Z.to_nat a) l).
Proof.
  intros H. destruct (Z.le_gt_cases b (len l)).
  - apply slice_inner; lia.
  - rewrite slice_tail by lia. symmetry. apply firstn_all2.
    rewrite length_skipn. unfold len in *. lia.
Qed.

Lemma replace_twice_normalize text :
  replace (chr "?") (chr ".") (replace (chr "!") (chr ".") text) = normalize text.
Proof.
  unfold replace, normalize. rewrite map_map. apply map_ext. intros c.
  destruct (N.eqb_spec c (chr "!")) as [->|H1]; [reflexivity|].
  reflexivity.
Qed.

Lemma split_on_cons sep s : exists w ws, split_on sep s = w :: ws.
Proof.
  induction s as [|c s (w & ws & IH)]; simpl; [eauto|].
  destruct (N.eqb c sep); [eauto|]. rewrite IH. eauto.
Qed.

(** The scan for a one-character separator cuts at every occurrence. *)
Lemma split_go_single sep s : forall cur,
  split_go [sep] s 0 cur =
    match split_on sep s with
    | [] => [rev cur]
    | w :: ws => (rev cur ++ w) :: ws
    end.
Proof.
  induction s as [|c s IH]; intros cur; simpl.
  - now rewrite app_nil_r.
  - rewrite andb_true_r, N.eqb_sym. destruct (N.eqb c sep).
    + rewrite app_nil_r. f_equal. rewrite IH. simpl.
      destruct (split_on_cons sep s) as (w & ws & ->). reflexivity.
    + rewrite IH. destruct (split_on_cons sep s) as (w & ws & ->).
      simpl. now rewrite <- app_assoc.
Qed.

Lemma split_single sep s : split [sep] s = split_on sep s.
Proof.
  unfold split. rewrite split_go_single.
  now destruct (split_on_cons sep s) as (w & ws & ->).
Qed.

Lemma stripped_nonempty_filter fragments :
  stripped_nonempty fragments = filter truthy (map strip fragments).
Proof.
  unfold stripped_nonempty.
  induction fragments as [|s rest IH]; simpl; [reflexivity|].
  rewrite IH. now destruct (truthy (strip s)).
Qed.

(** The sentences the source computes are those of the specification. *)
Lemma sentences_refine text :
  stripped_nonempty
    (split (str ".")
       (replace (chr "?") (chr ".") (replace (chr "!") (chr ".") text)))
  = sentences_of text.
Proof.
  rewrite replace_twice_normalize, stripped_nonempty_filter.
  unfold sentences_of. f_equal. f_equal. apply split_single.
Qed.

Lemma sentences_of_truthy text : Forall (fun s => truthy s = true) (sentences_of text).
Proof.
  unfold sentences_of. apply Forall_forall. intros s Hs.
  now apply filter_In in Hs.
Qed.

(** *** The indices of the [for] loop and the batches *)

Lemma range_length_step n k :
  1 <= k -> 0 < n ->
  Z.to_nat (range_length 0 n k)
  = S (Z.to_nat (range_length 0 (Z.max 0 (n - k)) k)).
Proof.
  intros Hk Hn. unfold range_length.
  destruct (Z.ltb_spec 0 k); [|lia].
  destruct (Z.ltb_spec 0 n); [|lia].
  destruct (Z.ltb_spec 0 (Z.max 0 (n - k))) as [Hm|Hm].
  - rewrite Z.max_r in * by lia.
    replace (n - 0 - 1) with (n - k - 0 - 1 + 1 * k) by lia.
    rewrite Z.div_add by lia.
    pose proof (Z.div_pos (n - k - 0 - 1) k ltac:(lia) ltac:(lia)). lia.
  - rewrite Z.div_small by lia. reflexivity.
Qed.

Lemma range_length_empty k : 1 <= k -> range_length 0 0 k = 0.
Proof.
  intros Hk. unfold range_length. destruct (Z.ltb_spec 0 k); [reflexivity|lia].
Qed.

Lemma batches_fuel_slices k : 1 <= k -> forall fuel (A : Type) (l : list A),
  (length l <= fuel)%nat ->
  batches_fuel fuel (Z.to_nat k) l
  = map (fun j => slice l (Z.of_nat j * k) (Z.of_nat j * k + k))
        (seq 0 (Z.to_nat (range_length 0 (len l) k))).
Proof.
  intros Hk. induction fuel as [|fuel IH]; intros A l Hl.
  - destruct l; [|simpl in Hl; lia].
    change (len (@nil A)) with 0. now rewrite range_length_empty.
  - destruct l as [|x l'].
    { change (len (@nil A)) with 0. now rewrite range_length_empty. }
    assert (Hpos : 0 < len (x :: l')) by (unfold len; simpl; lia).
    change (batches_fuel (S fuel) (Z.to_nat k) (x :: l'))
      with (firstn (Z.to_nat k) (x :: l')
            :: batches_fuel fuel (Z.to_nat k) (skipn (Z.to_nat k) (x :: l'))).
    revert Hl Hpos. generalize (x :: l'). intros l Hl Hpos.
    rewrite (range_length_step _ _ Hk Hpos).
    rewrite <- cons_seq, <- seq_shift, map_cons, map_map.
    f_equal.
    + rewrite slice_nonneg by lia. simpl. f_equal. lia.
    + rewrite IH by (rewrite length_skipn; lia).
      replace (len (skipn (Z.to_nat k) l)) with (Z.max 0 (len l - k))
        by (unfold len; rewrite length_skipn; lia).
      apply map_ext. intros j.
      rewrite !slice_nonneg by lia. rewrite skipn_skipn.
      f_equal; [lia|]. f_equal. lia.
Qed.

Lemma range_from_zero n k :
  1 <= k ->
  range 0 n k
  = Ok (map (fun j => Z.of_nat j * k) (seq 0 (Z.to_nat (range_length 0 n k)))).
Proof.
  intros Hk. unfold range. destruct (Z.eqb_spec k 0); [lia|].
  f_equal.
Qed.

(** Every batch starts with an element of the list. *)
Lemma batches_fuel_heads {A : Type} (P : A -> Prop) kn :
  (1 <= kn)%nat -> forall fuel (l : list A), Forall P l ->
  Forall (fun b => exists x rest, b = x :: rest /\ P x) (batches_fuel fuel kn l).
Proof.
  intros Hk. induction fuel as [|fuel IH]; intros l Hl; [constructor|].
  destruct l as [|x l']; [constructor|].
  simpl batches_fuel. constructor.
  - destruct kn as [|kn']; [lia|]. simpl.
    inversion Hl; subst. eauto.
  - apply IH. rewrite <- (firstn_skipn kn (x :: l')) in Hl.
    now apply Forall_app in Hl.
Qed.

Lemma join_truthy sep x rest :
  truthy x = true -> truthy (join sep (x :: rest)) = true.
Proof.
  intros Hx. destruct x as [|c x]; [discriminate|].
  simpl. now destruct rest.
Qed.

(** The loop appends one chunk per index whose joined batch is non-empty. *)
Lemma fold_sentence_step sentences k indices : forall chunks,
  fold_left (sentence_step sentences k) indices chunks
  = chunks ++
    map (fun batch => join (str ". ") batch ++ str ".")
      (filter (fun batch => truthy (join (str ". ") batch))
         (map (fun i => slice sentences i (i + k)) indices)).
Proof.
  induction indices as [|i rest IH]; intros chunks.
  - simpl. now rewrite app_nil_r.
  - cbn [fold_left map filter]. rewrite IH. unfold sentence_step.
    destruct (truthy (join (str ". ") (slice sentences i (i + k)))).
    + cbn [map]. now rewrite <- app_assoc.
    + reflexivity.
Qed.

Lemma filter_all {A : Type} (f : A -> bool) l :
  Forall (fun x => f x = true) l -> filter f l = l.
Proof.
  induction 1 as [|x l Hx _ IH]; simpl; [reflexivity|].
  now rewrite Hx, IH.
Qed.

(** The source computes the chunks the specification words. *)
Lemma sentence_based_chunks_refines text k :
  1 <= k ->
  sentence_based_chunks text k = Ok (sentence_based text (Z.to_nat k)).
Proof.
  intros Hk. unfold sentence_based_chunks.
  rewrite sentences_refine, range_from_zero by exact Hk.
  cbn [bind]. f_equal.
  rewrite fold_sentence_step. cbn [app].
  rewrite map_map.
  rewrite <- (batches_fuel_slices k Hk (length (sentences_of text))) by lia.
  fold (batches (Z.to_nat k) (sentences_of text)).
  unfold sentence_based. f_equal.
  apply filter_all.
  pose proof (batches_fuel_heads (fun s => truthy s = true) (Z.to_nat k)
                ltac:(lia) (length (sentences_of text)) (sentences_of text)
                (sentences_of_truthy text)) as H.
  unfold batches. eapply Forall_impl; [|exact H].
  intros b (x & rest & -> & Hx). now apply join_truthy.
Qed.

(** *** Whitespace-only input *)

Lemma isspace_not_terminator c :
  isspace c = true -> c <> chr "!" /\ c <> chr "?" /\ c <> chr ".".
Proof.
  intros H. repeat split; intros ->; discriminate H.
Qed.

Lemma normalize_whitespace text : whitespace_only text -> normalize text = text.
Proof.
  unfold whitespace_only, normalize.
  induction text as [|c t IH]; cbn [map forallb]; [reflexivity|].
  intros H. apply andb_prop in H as [Hc Ht].
  destruct (isspace_not_terminator c Hc) as (H1 & H2 & _).
  apply N.eqb_neq in H1, H2. rewrite H1, H2. cbn [orb]. now rewrite IH.
Qed.

Lemma split_on_whitespace text :
  whitespace_only text -> split_on (chr ".") text = [text].
Proof.
  unfold whitespace_only.
  induction text as [|c t IH]; cbn [split_on forallb]; [reflexivity|].
  intros H. apply andb_prop in H as [Hc Ht].
  destruct (isspace_not_terminator c Hc) as (_ & _ & H3).
  apply N.eqb_neq in H3. rewrite H3. now rewrite IH.
Qed.

Lemma lstrip_whitespace text : whitespace_only text -> lstrip text = [].
Proof.
  unfold whitespace_only.
  induction text as [|c t IH]; cbn [lstrip forallb]; [reflexivity|].
  intros H. apply andb_prop in H as [Hc Ht]. rewrite Hc. now apply IH.
Qed.

Lemma sentences_of_whitespace text : whitespace_only text -> sentences_of text = [].
Proof.
  intros H. unfold sentences_of.
  rewrite (normalize_whitespace _ H), (split_on_whitespace _ H).
  simpl. unfold strip. now rewrite (lstrip_whitespace _ H).
Qed.

(** *** Other values of [sentences_per_chunk] *)

(** A zero step makes [range] raise. *)
Lemma sentence_based_chunks_zero text :
  sentence_based_chunks text 0 = Raise ValueError.
Proof. reflexivity. Qed.

(** A negative step makes the index range empty. *)
Lemma sentence_based_chunks_negative text k :
  k < 0 -> sentence_based_chunks text k = Ok [].
Proof.
  intros Hk. unfold sentence_based_chunks, range.
  destruct (Z.eqb_spec k 0); [lia|].
  unfold range_length. destruct (Z.ltb_spec 0 k); [lia|].
  set (total := len _). assert (0 <= total) by apply len_nonneg.
  destruct (Z.ltb_spec total 0); [lia|]. reflexivity.
Qed.

(** C7 (as amended): for every text and every [sentences_per_chunk >= 1]
    the chunks are those of the specification: ['!'] and ['?'] become ['.'], the
    text is split on ['.'], fragments are trimmed and empty ones dropped,
    consecutive sentences are grouped into batches of
    [sentences_per_chunk], each rejoined with [". "] and closed by ['.'].
    Every chunk ends in ['.']; empty or whitespace-only input gives no
    chunk; ["One. Two. Three. Four."] with 2 gives exactly two chunks. *)
Theorem sentence_based_chunks_spec text sentences_per_chunk :
  1 <= sentences_per_chunk ->
  sentence_based_chunks text sentences_per_chunk
    = Ok (sentence_based text (Z.to_nat sentences_per_chunk)) /\
  Forall (ends_with (chr ".")) (sentence_based text (Z.to_nat sentences_per_chunk)) /\
  (whitespace_only text ->
   sentence_based_chunks text sentences_per_chunk = Ok []) /\
  sentence_based_chunks (str "One. Two. Three. Four.") 2
    = Ok [str "One. Two."; str "Three. Four."].
Proof.
  intros Hk. split; [now apply sentence_based_chunks_refines|].
  split; [|split; [|reflexivity]].
  - unfold sentence_based. apply Forall_map, Forall_forall.
    intros batch _. now exists (join (str ". ") batch).
  - intros Hw. rewrite sentence_based_chunks_refines by exact Hk.
    unfold sentence_based. now rewrite (sentences_of_whitespace _ Hw).
Qed.

End Sentences.

(** C7, as stated, fails: with [sentences_per_chunk = 0] the empty text
    and a text of whitespace do not give the empty list; the call raises
    [ValueError]. *)
Lemma sentence_based_chunks_zero_raises_on_empty :
  IndexDocuments.sentence_based_chunks [] 0 = Raise ValueError /\
  whitespace_only (str "   ") /\
  IndexDocuments.sentence_based_chunks (str "   ") 0 = Raise ValueError.
Proof. repeat split. Qed.

Lemma sentence_based_chunks_spec_witness :
  IndexDocuments.sentence_based_chunks (str " Hi there!  What?  ok.. fine ") 2
    = Ok (sentence_based (str " Hi there!  What?  ok.. fine ") 2) /\
  IndexDocuments.sentence_based_chunks (str "   ") 2 = Ok [].
Proof.
  split.
  - apply (sentence_based_chunks_spec (str " Hi there!  What?  ok.. fine ") 2).
    lia.
  - apply (sentence_based_chunks_spec (str "   ") 2); [lia|reflexivity].
Defined.

(** ** Sorting by a float key *)
Section Sorting.
Context {A : Type}.
Variable key : A -> Q.

Lemma float_lt_spec a b : float_lt a b = true <-> (a < b)%Q.
Proof.
  unfold float_lt. rewrite negb_true_iff.
  split.
  - intros H. apply Qnot_le_lt. intros Hle.
    apply Qle_bool_iff in Hle. congruence.
  - intros H. destruct (Qle_bool b a) eqn:E; [|reflexivity].
    apply Qle_bool_iff in E. exfalso. exact (Qlt_not_le _ _ H E).
Qed.

Lemma float_lt_false a b : float_lt a b = false <-> (b <= a)%Q.
Proof.
  unfold float_lt. rewrite negb_false_iff. apply Qle_bool_iff.
Qed.

Lemma sort_insert_perm x l : Permutation (sort_insert key x l) (x :: l).
Proof.
  induction l as [|y l IH]; simpl; [reflexivity|].
  destruct (float_lt (key y) (key x)); [|reflexivity].
  rewrite IH. apply perm_swap.
Qed.

Lemma sort_asc_perm l : Permutation (sort_asc key l) l.
Proof.
  induction l as [|x l IH]; simpl; [reflexivity|].
  rewrite sort_insert_perm. now constructor.
Qed.

Lemma sort_perm reverse l : Permutation (sort key reverse l) l.
Proof.
  unfold sort. destruct reverse; [|apply sort_asc_perm].
  rewrite <- Permutation_rev, sort_asc_perm. symmetry. apply Permutation_rev.
Qed.

Lemma sort_insert_sorted x l :
  StronglySorted (fun a b => (key a <= key b)%Q) l ->
  StronglySorted (fun a b => (key a <= key b)%Q) (sort_insert key x l).
Proof.
  induction 1 as [|y l Hs IH Hy]; simpl.
  - constructor; constructor.
  - destruct (float_lt (key y) (key x)) eqn:E.
    + constructor; [exact IH|].
      apply float_lt_spec, Qlt_le_weak in E.
      eapply Permutation_Forall; [symmetry; apply sort_insert_perm|].
      constructor; [exact E|exact Hy].
    + apply float_lt_false in E.
      constructor; [now constructor|].
      constructor; [exact E|].
      eapply Forall_impl; [|exact Hy].
      intros z Hz. simpl in Hz. eapply Qle_trans; eassumption.
Qed.

Lemma sort_asc_sorted l :
  StronglySorted (fun a b => (key a <= key b)%Q) (sort_asc key l).
Proof.
  induction l as [|x l IH]; simpl; [constructor|].
  now apply sort_insert_sorted.
Qed.

Lemma StronglySorted_snoc (R : A -> A -> Prop) l x :
  StronglySorted R l -> Forall (fun y => R y x) l ->
  StronglySorted R (l ++ [x]).
Proof.
  induction 1 as [|y l Hs IH Hy]; intros Hx; simpl.
  - constructor; constructor.
  - inversion Hx; subst. constructor; [now apply IH|].
    apply Forall_app. split; [exact Hy|]. now constructor.
Qed.

Lemma StronglySorted_rev (R : A -> A -> Prop) l :
  StronglySorted R l -> StronglySorted (fun a b => R b a) (rev l).
Proof.
  induction 1 as [|x l Hs IH Hx]; simpl; [constructor|].
  apply StronglySorted_snoc; [exact IH|].
  apply Forall_rev. exact Hx.
Qed.

(** With [reverse=True] the result is in descending key order. *)
Lemma sort_reverse_sorted l :
  StronglySorted (fun a b => (key b <= key a)%Q) (sort key true l).
Proof.
  unfold sort. apply (StronglySorted_rev (fun a b => (key a <= key b)%Q)).
  apply sort_asc_sorted.
Qed.

(** Insertion does not reorder elements of one key. *)
Lemma sort_insert_stable s x l :
  filter (fun a => Qeq_bool (key a) s) (sort_insert key x l)
  = filter (fun a => Qeq_bool (key a) s) (x :: l).
Proof.
  induction l as [|y l IH]; [reflexivity|].
  cbn [sort_insert]. destruct (float_lt (key y) (key x)) eqn:E; [|reflexivity].
  cbn [filter] in *. rewrite IH.
  destruct (Qeq_bool (key x) s) eqn:Ex; [|reflexivity].
  destruct (Qeq_bool (key y) s) eqn:Ey; [|reflexivity].
  exfalso. apply float_lt_spec in E.
  apply Qeq_bool_iff in Ex, Ey. rewrite Ex, Ey in E.
  exact (Qlt_irrefl _ E).
Qed.

Lemma sort_asc_stable s l :
  filter (fun a => Qeq_bool (key a) s) (sort_asc key l)
  = filter (fun a => Qeq_bool (key a) s) l.
Proof.
  induction l as [|x l IH]; [reflexivity|].
  cbn [sort_asc]. rewrite sort_insert_stable. cbn [filter]. now rewrite IH.
Qed.

(** The sort is stable in both directions. *)
Lemma sort_stable reverse s l :
  filter (fun a => Qeq_bool (key a) s) (sort key reverse l)
  = filter (fun a => Qeq_bool (key a) s) l.
Proof.
  unfold sort. destruct reverse; [|apply sort_asc_stable].
  rewrite filter_rev, sort_asc_stable, filter_rev. apply rev_involutive.
Qed.

Lemma StronglySorted_firstn (R : A -> A -> Prop) m : forall l,
  StronglySorted R l -> StronglySorted R (firstn m l).
Proof.
  induction m as [|m IH]; intros l H; [constructor|].
  destruct l as [|x l]; [constructor|].
  apply StronglySorted_inv in H as [Hs Hx]. simpl.
  constructor; [now apply IH|].
  rewrite <- (firstn_skipn m l) in Hx. now apply Forall_app in Hx.
Qed.

Lemma filter_firstn_prefix (f : A -> bool) m l :
  prefix_of (filter f (firstn m l)) (filter f l).
Proof.
  exists (filter f (skipn m l)).
  now rewrite <- filter_app, firstn_skipn.
Qed.

(** [l[:k]] is an initial segment of [l], whatever the sign of [k]. *)
Lemma slice_to_firstn (l : list A) k : exists m, slice_to l k = firstn m l.
Proof.
  destruct (Z.lt_ge_cases k 0).
  - eexists. now apply slice_to_neg.
  - eexists. apply slice_to_nonneg. lia.
Qed.

End Sorting.

(** ** The similarity ranker *)
Section Ranker.
Import SearchDocuments.

Variable cosine : vector -> vector -> Q.

Lemma slice_nil {A : Type} a b : slice (@nil A) a b = [].
Proof. unfold slice. now rewrite skipn_nil, firstn_nil. Qed.

Lemma scan_rows_skip query r rest results :
  usable r = false ->
  scan_rows cosine query (r :: rest) results = scan_rows cosine query rest results.
Proof. unfold usable. intros H. simpl. now rewrite H. Qed.

Lemma scan_rows_step query r rest results :
  usable r = true ->
  scan_rows cosine query (r :: rest) results
  = bind (_calculate_similarity cosine query (chunk_embedding_of (embedding r)))
      (fun similarity =>
         scan_rows cosine query rest (results ++ [(info_of r, similarity)])).
Proof. unfold usable. intros H. cbn [scan_rows]. now rewrite H. Qed.

Lemma calculate_similarity_Ok vec1 vec2 s :
  _calculate_similarity cosine vec1 vec2 = Ok s -> s = cosine vec1 vec2.
Proof.
  unfold _calculate_similarity.
  destruct (_ && all_finite vec2); [|discriminate]. congruence.
Qed.

Lemma calculate_similarity_scorable query r :
  usable r = true -> scorable query r ->
  _calculate_similarity cosine query (chunk_embedding_of (embedding r))
  = Ok (cosine query (chunk_embedding_of (embedding r))).
Proof.
  unfold usable, scorable, same_width, _calculate_similarity, len.
  intros Hu (Hw & Hq & Hv). rewrite Hw, Z.eqb_refl, Hq, Hv.
  destruct (chunk_embedding_of (embedding r)); [discriminate|].
  rewrite <- Hw. reflexivity.
Qed.

Lemma calculate_similarity_unscorable query r :
  unscorable query r ->
  _calculate_similarity cosine query (chunk_embedding_of (embedding r))
  = Raise ValueError.
Proof.
  unfold unscorable, same_width, _calculate_similarity, len.
  intros (_ & [Hw|[Hq|Hv]]).
  - destruct (Z.eqb_spec (Z.of_nat (length query))
                (Z.of_nat (length (chunk_embedding_of (embedding r)))));
      [exfalso; apply Hw; lia|reflexivity].
  - rewrite Hq, andb_false_r. reflexivity.
  - rewrite Hv, andb_false_r. reflexivity.
Qed.

(** Rows with an empty vector do not take part in the scan. *)
Lemma scan_rows_filter query rs : forall results,
  scan_rows cosine query rs results
  = scan_rows cosine query (filter usable rs) results.
Proof.
  induction rs as [|r rest IH]; intros results; [reflexivity|].
  cbn [filter]. destruct (usable r) eqn:E.
  - rewrite !scan_rows_step by exact E.
    destruct (_calculate_similarity cosine query _); [|reflexivity].
    cbn [bind]. apply IH.
  - rewrite scan_rows_skip by exact E. apply IH.
Qed.

(** A scan that completes has scored the usable rows in scan order. *)
Lemma scan_rows_Ok query rs : forall results scanned,
  scan_rows cosine query rs results = Ok scanned ->
  scanned = results ++ scored cosine query rs.
Proof.
  unfold scored.
  induction rs as [|r rest IH]; intros results scanned H.
  - simpl in *. injection H as <-. now rewrite app_nil_r.
  - cbn [filter]. destruct (usable r) eqn:E.
    + rewrite scan_rows_step in H by exact E.
      destruct (_calculate_similarity cosine query _) as [sim|e] eqn:Ec;
        [|discriminate].
      apply calculate_similarity_Ok in Ec. subst sim. cbn [bind] in H.
      apply IH in H. rewrite H, <- app_assoc. reflexivity.
    + rewrite scan_rows_skip in H by exact E. now apply IH.
Qed.

(** It completes when the query can be compared with every usable row. *)
Lemma scan_rows_scorable query rs : forall results,
  Forall (fun r => usable r = true -> scorable query r) rs ->
  scan_rows cosine query rs results = Ok (results ++ scored cosine query rs).
Proof.
  unfold scored.
  induction rs as [|r rest IH]; intros results H.
  - simpl. now rewrite app_nil_r.
  - inversion H as [|? ? Hr Hrest]; subst.
    cbn [filter]. destruct (usable r) eqn:E.
    + rewrite scan_rows_step by exact E.
      rewrite calculate_similarity_scorable by auto.
      cbn [bind map]. rewrite IH by exact Hrest.
      now rewrite <- app_assoc.
    + rewrite scan_rows_skip by exact E. now apply IH.
Qed.

(** It raises when it cannot be compared with some usable row. *)
Lemma scan_rows_unscorable query rs : forall results,
  Exists (unscorable query) rs ->
  scan_rows cosine query rs results = Raise ValueError.
Proof.
  induction rs as [|r rest IH]; intros results H; [inversion H|].
  destruct (usable r) eqn:E.
  - rewrite scan_rows_step by exact E.
    destruct (_calculate_similarity cosine query _) as [sim|e] eqn:Ec.
    + cbn [bind]. apply IH. inversion H as [? ? Hu|]; subst; [|assumption].
      rewrite (calculate_similarity_unscorable _ _ Hu) in Ec. discriminate.
    + cbn [bind]. unfold _calculate_similarity in Ec.
      destruct (_ && all_finite _) in Ec; [discriminate|]. congruence.
  - rewrite scan_rows_skip by exact E. apply IH.
    inversion H as [? ? [Hu _]|]; subst; [congruence|assumption].
Qed.

Lemma search_similar_chunks_Ok db query top_k results :
  search_similar_chunks cosine db query top_k = Ok results ->
  results = slice_to (sort snd true (scored cosine query (stored_rows db))) top_k.
Proof.
  unfold search_similar_chunks. intros H.
  destruct db as [|t]; [discriminate|]. cbn [fetchall bind stored_rows] in *.
  destruct (scan_rows cosine query (rows t) []) as [scanned|e] eqn:E;
    [|discriminate].
  apply scan_rows_Ok in E. cbn [app] in E. subst scanned.
  cbn [bind] in H. now injection H as <-.
Qed.

(** *** Behaviour of [top_k] *)

(** A non-negative [top_k] keeps the first [top_k] ranked entries, all of
    them when there are fewer. *)
Lemma search_top_k_nonneg db query top_k results :
  0 <= top_k ->
  search_similar_chunks cosine db query top_k = Ok results ->
  results = firstn (Z.to_nat top_k)
              (sort snd true (scored cosine query (stored_rows db))) /\
  length results
  = Nat.min (Z.to_nat top_k) (length (filter usable (stored_rows db))).
Proof.
  intros Hk H. apply search_similar_chunks_Ok in H.
  rewrite slice_to_nonneg in H by exact Hk. split; [exact H|].
  subst results. rewrite length_firstn.
  rewrite (Permutation_length (sort_perm snd true _)).
  unfold scored. now rewrite length_map.
Qed.

(** A negative [top_k] drops the last [- top_k] ranked entries and keeps
    the others. *)
Lemma search_top_k_negative db query top_k results :
  top_k < 0 ->
  search_similar_chunks cosine db query top_k = Ok results ->
  length results
  = (length (filter usable (stored_rows db)) - Z.to_nat (- top_k))%nat.
Proof.
  intros Hk H. apply search_similar_chunks_Ok in H.
  rewrite slice_to_neg in H by exact Hk.
  subst results. rewrite length_firstn. unfold len.
  rewrite (Permutation_length (sort_perm snd true _)).
  unfold scored. rewrite length_map. lia.
Qed.

(** C8: the results are in descending order of score, and for every score
    the results with that score are the first of the candidates with that
    score, in the order of the scan. *)
Theorem search_results_sorted_stable db query top_k results :
  search_similar_chunks cosine db query top_k = Ok results ->
  descending results /\
  forall s, prefix_of (with_score s results)
                      (with_score s (scored cosine query (stored_rows db))).
Proof.
  intros H. apply search_similar_chunks_Ok in H.
  destruct (slice_to_firstn
              (sort snd true (scored cosine query (stored_rows db))) top_k)
    as [m Hm].
  rewrite Hm in H. subst results. split.
  - apply StronglySorted_firstn. apply (sort_reverse_sorted snd).
  - intros s. unfold with_score.
    rewrite <- (sort_stable snd true s (scored cosine query (stored_rows db))).
    apply filter_firstn_prefix.
Qed.

(** On a table that exists and holds no row the search returns the empty
    list, for every query vector and every [top_k]. *)
Lemma search_empty_table t query top_k :
  rows t = [] -> search_similar_chunks cosine (Present t) query top_k = Ok [].
Proof.
  intros H. unfold search_similar_chunks. cbn [fetchall bind]. rewrite H. simpl.
  unfold slice_to. now rewrite slice_nil.
Qed.

(** C9: the code does not do what the claim says.  A database in which
    nothing was ever indexed holds no chunk, and there the search, which
    never creates the table, raises instead of returning the empty list,
    for every query vector and every [top_k]. *)
Theorem search_never_indexed_raises query top_k :
  stored_rows Absent = [] /\
  search_similar_chunks cosine Absent query top_k = Raise DatabaseError.
Proof. split; reflexivity. Qed.

End Ranker.

(** *** The ranker on concrete tables *)

(** C3: the code does not do what the claim says.  A stored vector of
    three entries against a query of two is not left out, as a row with
    an empty vector is: the search raises. *)
Theorem search_width_mismatch_raises :
  SearchDocuments.search_similar_chunks Demo.dot (Present Demo.mixed_widths)
    [Finite 1; Finite 0] 5
    = Raise ValueError /\
  SearchDocuments.search_similar_chunks Demo.dot (Present Demo.with_blank)
    [Finite 1; Finite 0] 5
    = Ok [Demo.hit_of 1 "first" 1; Demo.hit_of 3 "third" 0].
Proof. split; reflexivity. Qed.

(** C2 fails for a negative [top_k]: with three ranked candidates and
    [top_k = -1] the search returns the first two, not the empty list. *)
Theorem search_negative_top_k_keeps_results :
  SearchDocuments.search_similar_chunks Demo.dot (Present Demo.three_rows)
    [Finite 1; Finite 0] (-1)
    = Ok [Demo.hit_of 1 "first" 1; Demo.hit_of 3 "third" 1].
Proof. reflexivity. Qed.

Lemma search_results_sorted_stable_witness :
  descending [Demo.hit_of 1 "first" 1; Demo.hit_of 3 "third" 1;
              Demo.hit_of 2 "second" 0] /\
  forall s,
    prefix_of
      (with_score s [Demo.hit_of 1 "first" 1; Demo.hit_of 3 "third" 1;
                     Demo.hit_of 2 "second" 0])
      (with_score s (scored Demo.dot [Finite 1; Finite 0]
                       (stored_rows (Present Demo.three_rows)))).
Proof.
  apply (search_results_sorted_stable Demo.dot (Present Demo.three_rows)
           [Finite 1; Finite 0] 5).
  reflexivity.
Defined.

(** ** The chunkers on the inputs of the test suite *)
Section ChunkerExamples.
Import IndexDocuments.

(** [test_fixed_size_chunks_overlap]: 500 characters, size 100, overlap 25. *)
Example fixed_size_500 :
  option_map (map (@length char))
    (fixed_size_chunks (repeat (chr "a") 500) 100 25)
  = Some [100; 100; 100; 100; 100; 100; 50]%nat.
Proof. vm_compute. reflexivity. Qed.

(** 2600 characters, size 1000, overlap 200: the slices start at 0, 800
    and 1600, and the third one reaches the end of the text. *)
Example fixed_size_2600 :
  option_map (map (@length char))
    (fixed_size_chunks (repeat (chr "x") 2600) 1000 200)
  = Some [1000; 1000; 1000]%nat.
Proof. vm_compute. reflexivity. Qed.

Example fixed_size_small :
  fixed_size_chunks (str "abcdefghij") 4 1
  = Some [str "abcd"; str "defg"; str "ghij"].
Proof. reflexivity. Qed.

(** A chunk size that covers the text returns at once, whatever the
    overlap. *)
Example fixed_size_one_chunk :
  fixed_size_chunks (str "a") 5 5 = Some [str "a"].
Proof. reflexivity. Qed.

Example sentence_based_empty :
  sentence_based_chunks [] 5 = Ok [].
Proof. reflexivity. Qed.

Example sentence_based_mixed :
  sentence_based_chunks (str " Hi there!  What?  ok.. fine ") 2
  = Ok [str "Hi there. What."; str "ok. fine."].
Proof. reflexivity. Qed.

(** [paragraph_based("A.\n\nB.\n\nC.")] *)
Example paragraph_based_three :
  paragraph_based_chunks
    (str "A." ++ [chr "010"; chr "010"] ++ str "B."
       ++ [chr "010"; chr "010"] ++ str "C.")
  = [str "A."; str "B."; str "C."].
Proof. reflexivity. Qed.

Example paragraph_based_empty : paragraph_based_chunks [] = [].
Proof. reflexivity. Qed.

(** A complete run replaces the old rows by the new chunk set. *)
Example process_document_replaces :
  process_document (Demo.externals_for (str "abcd") Demo.embed_ok)
    (Present Demo.old_table) (str "doc.pdf") (str "fixed_size") 2 0 5
  = Returned
      {| rows := [mkRow 1 (str "ab") (PyList [Finite 1; Finite 0]) (str "doc.pdf")
                    (str "fixed_size") 0;
                  mkRow 2 (str "cd") (PyList [Finite 1; Finite 0]) (str "doc.pdf")
                    (str "fixed_size") 0];
         id_seq := 3 |}.
Proof. reflexivity. Qed.

(** An unknown strategy raises before the table is opened. *)
Example process_document_invalid_strategy :
  process_document (Demo.externals_for (str "abcd") Demo.embed_ok)
    (Present Demo.old_table) (str "doc.pdf") (str "words") 2 0 5
  = Raised ValueError (Present Demo.old_table).
Proof. reflexivity. Qed.

End ChunkerExamples.

(** * Further properties *)

(** ** Fixed-size chunking: where it hangs, how many chunks, which ones *)
Section FixedSizeLayout.
Import IndexDocuments.

Variable text : pystr.
Variables chunk_size overlap : Z.

Local Abbreviation loop fuel := (fixed_size_loop fuel text chunk_size overlap).
Local Abbreviation step := (chunk_size - overlap).

(** The loop returns for no amount of fuel exactly when the advance is
    not positive and the first slice stops short of the end of a
    non-empty text. *)
Theorem fixed_size_chunks_hangs_iff :
  (forall fuel, fixed_size_chunks_fuel fuel text chunk_size overlap = None) <->
  (chunk_size <= overlap /\ chunk_size < len text /\ text <> []).
Proof.
  split.
  - intros H. specialize (H (S (length text))).
    unfold fixed_size_chunks_fuel in H.
    destruct (Z.lt_ge_cases overlap chunk_size) as [Hadv|Hadv].
    + destruct (fixed_size_loop_returns text chunk_size overlap
                  (S (length text)) 0 [] Hadv) as [r Hr];
        [unfold len; lia|congruence].
    + rewrite fixed_size_loop_step in H.
      destruct (Z.ltb_spec 0 (len text)) as [Hl|Hl]; [|discriminate].
      destruct (Z.geb_spec (0 + chunk_size) (len text)); [discriminate|].
      repeat split; try lia. intros ->. unfold len in Hl. simpl in Hl. lia.
  - intros (Hadv & Hc & Ht) fuel. unfold fixed_size_chunks_fuel.
    apply fixed_size_loop_stuck; try lia.
    unfold len. destruct text; [contradiction|simpl; lia].
Qed.

Lemma len_cons {A : Type} (x : A) l : len (x :: l) = 1 + len l.
Proof. unfold len. cbn [length]. lia. Qed.

Hypothesis valid : 0 <= overlap < chunk_size.

(** The first chunk a turn of the loop produces. *)
Lemma fixed_size_loop_head fuel start c r :
  loop fuel start [] = Some (c :: r) ->
  start < len text /\ c = slice text start (start + chunk_size).
Proof.
  destruct fuel as [|fuel]; [discriminate|].
  rewrite fixed_size_loop_step.
  destruct (Z.ltb_spec start (len text)); [|discriminate].
  destruct (start + chunk_size >=? len text).
  - intros Heq. injection Heq as <- _. now split.
  - destruct (loop fuel _ []); [|discriminate].
    intros Heq. injection Heq as <- _. now split.
Qed.

Lemma fixed_size_loop_positions fuel : forall start r,
  0 <= start -> loop fuel start [] = Some r ->
  r = map (fun i => slice text (start + Z.of_nat i * step)
                      (start + Z.of_nat i * step + chunk_size))
          (seq 0 (length r)).
Proof.
  induction fuel as [|fuel IH]; intros start r Hs H; [discriminate|].
  rewrite fixed_size_loop_step in H.
  destruct (start <? len text); [|now injection H as <-].
  destruct (start + chunk_size >=? len text).
  - injection H as <-. simpl. now rewrite Z.add_0_r.
  - destruct (loop fuel _ []) as [r'|] eqn:E; [|discriminate].
    injection H as <-. cbn [length]. rewrite <- cons_seq, <- seq_shift.
    cbn [map]. rewrite map_map. f_equal.
    + now rewrite Z.mul_0_l, Z.add_0_r.
    + rewrite (IH (start + chunk_size - overlap) r') at 1 by (lia || exact E).
      apply map_ext. intros i. f_equal; lia.
Qed.

Lemma fixed_size_loop_count fuel : forall start r,
  0 <= start < len text -> loop fuel start [] = Some r ->
  len r = chunk_count (len text - start) chunk_size overlap.
Proof.
  induction fuel as [|fuel IH]; intros start r Hs H; [discriminate|].
  rewrite fixed_size_loop_step in H.
  destruct (Z.ltb_spec start (len text)); [|lia].
  unfold chunk_count.
  destruct (Z.leb_spec (len text - start) 0); [lia|].
  destruct (Z.geb_spec (start + chunk_size) (len text)).
  - injection H as <-.
    destruct (Z.leb_spec (len text - start) chunk_size); [reflexivity|lia].
  - destruct (loop fuel _ []) as [r'|] eqn:E; [|discriminate].
    injection H as <-.
    destruct (Z.leb_spec (len text - start) chunk_size); [lia|].
    rewrite len_cons.
    rewrite (IH (start + chunk_size - overlap) r') by (lia || exact E).
    unfold chunk_count.
    destruct (Z.leb_spec (len text - (start + chunk_size - overlap)) 0); [lia|].
    destruct (Z.leb_spec (len text - (start + chunk_size - overlap)) chunk_size).
    + assert (Hq : (len text - start - chunk_size + step - 1) / step = 1).
      { symmetry.
        apply Z.div_unique with (r := len text - start - chunk_size - 1); lia. }
      lia.
    + replace (len text - start - chunk_size + step - 1)
        with (len text - (start + chunk_size - overlap) - chunk_size
              + step - 1 + 1 * step) by lia.
      rewrite Z.div_add by lia. lia.
Qed.

Lemma fixed_size_loop_overlap fuel : forall start r i c1 c2,
  0 <= start -> loop fuel start [] = Some r ->
  nth_error r i = Some c1 -> nth_error r (S i) = Some c2 ->
  len c1 = chunk_size /\ overlap < len c2 /\
  skipn (Z.to_nat step) c1 = firstn (Z.to_nat overlap) c2.
Proof.
  induction fuel as [|fuel IH]; intros start r i c1 c2 Hs H H1 H2; [discriminate|].
  rewrite fixed_size_loop_step in H.
  destruct (Z.ltb_spec start (len text)); [|injection H as <-; destruct i; discriminate].
  destruct (Z.geb_spec (start + chunk_size) (len text)).
  { injection H as <-. destruct i; discriminate. }
  destruct (loop fuel _ []) as [r'|] eqn:E; [|discriminate].
  injection H as <-. destruct i as [|i].
  - simpl in H1, H2. injection H1 as <-.
    destruct r' as [|c r'']; [discriminate|]. simpl in H2. injection H2 as ->.
    apply fixed_size_loop_head in E as [Hlt ->].
    rewrite !len_slice. unfold slice_index.
    repeat match goal with
           | |- context [?a <? 0] => destruct (Z.ltb_spec a 0); [lia|]
           end.
    split; [lia|]. split; [lia|].
    rewrite !slice_nonneg by lia.
    rewrite skipn_firstn_comm, skipn_skipn, firstn_firstn.
    f_equal; [lia|]. f_equal. lia.
  - simpl in H1, H2.
    apply (IH (start + chunk_size - overlap) r' i c1 c2); (lia || assumption).
Qed.

End FixedSizeLayout.

Section FixedSizeLayoutTheorems.
Import IndexDocuments.

(** For [0 <= overlap < chunk_size] the [i]-th chunk is the slice of the
    text from [i * (chunk_size - overlap)] of length [chunk_size]. *)
Theorem fixed_size_chunks_positions text chunk_size overlap :
  0 <= overlap < chunk_size ->
  exists chunks,
    fixed_size_chunks text chunk_size overlap = Some chunks /\
    chunks = map (fun i => slice text (Z.of_nat i * (chunk_size - overlap))
                             (Z.of_nat i * (chunk_size - overlap) + chunk_size))
                 (seq 0 (length chunks)).
Proof.
  intros Hv.
  destruct (fixed_size_chunks_returns text chunk_size overlap Hv) as [chunks Hc].
  exists chunks. split; [exact Hc|].
  apply (fixed_size_loop_positions text chunk_size overlap Hv
           (S (length text)) 0 chunks (Z.le_refl 0) Hc).
Qed.

Lemma fixed_size_chunks_positions_witness :
  exists chunks,
    fixed_size_chunks (str "abcdefghij") 4 1 = Some chunks /\
    chunks = map (fun i => slice (str "abcdefghij") (Z.of_nat i * (4 - 1))
                             (Z.of_nat i * (4 - 1) + 4))
                 (seq 0 (length chunks)).
Proof. apply fixed_size_chunks_positions. lia. Defined.

(** For [0 <= overlap < chunk_size] a text of [n] characters gives no
    chunk when [n = 0], one when [n <= chunk_size], and otherwise one more
    than [n - chunk_size] divided by the advance, rounded up. *)
Theorem fixed_size_chunks_count text chunk_size overlap :
  0 <= overlap < chunk_size ->
  exists chunks,
    fixed_size_chunks text chunk_size overlap = Some chunks /\
    len chunks = chunk_count (len text) chunk_size overlap.
Proof.
  intros Hv.
  destruct (fixed_size_chunks_returns text chunk_size overlap Hv) as [chunks Hc].
  exists chunks. split; [exact Hc|].
  destruct text as [|c t].
  - simpl in Hc. injection Hc as <-. reflexivity.
  - rewrite (fixed_size_loop_count (c :: t) chunk_size overlap Hv
               (S (length (c :: t))) 0 chunks).
    + now rewrite Z.sub_0_r.
    + unfold len. simpl. lia.
    + exact Hc.
Qed.

Lemma fixed_size_chunks_count_witness :
  exists chunks,
    fixed_size_chunks (repeat (chr "x") 2600) 1000 200 = Some chunks /\
    len chunks = chunk_count (len (repeat (chr "x") 2600)) 1000 200.
Proof. apply fixed_size_chunks_count. lia. Defined.

(** For [0 <= overlap < chunk_size], of two neighbouring chunks the first
    has [chunk_size] characters, the second more than [overlap], and the
    last [overlap] characters of the first are the first [overlap]
    characters of the second. *)
Theorem fixed_size_chunks_overlap text chunk_size overlap chunks i c1 c2 :
  0 <= overlap < chunk_size ->
  fixed_size_chunks text chunk_size overlap = Some chunks ->
  nth_error chunks i = Some c1 -> nth_error chunks (S i) = Some c2 ->
  len c1 = chunk_size /\ overlap < len c2 /\
  skipn (Z.to_nat (chunk_size - overlap)) c1 = firstn (Z.to_nat overlap) c2.
Proof.
  intros Hv Hc H1 H2.
  exact (fixed_size_loop_overlap text chunk_size overlap Hv
           (S (length text)) 0 chunks i c1 c2 (Z.le_refl 0) Hc H1 H2).
Qed.

Lemma fixed_size_chunks_overlap_witness :
  len (str "abcd") = 4 /\ 1 < len (str "defg") /\
  skipn (Z.to_nat (4 - 1)) (str "abcd") = firstn (Z.to_nat 1) (str "defg").
Proof.
  apply (fixed_size_chunks_overlap (str "abcdefghij") 4 1
           [str "abcd"; str "defg"; str "ghij"] 0 (str "abcd") (str "defg")).
  - lia.
  - reflexivity.
  - reflexivity.
  - reflexivity.
Defined.

End FixedSizeLayoutTheorems.

(** ** Sentence chunking: degenerate batch sizes, count, characters *)
Section SentencesMore.
Import IndexDocuments.

(** A batch size of zero raises [ValueError] for every text, the empty
    one included; a negative batch size yields no chunk at all. *)
Theorem sentence_based_chunks_nonpositive text :
  sentence_based_chunks text 0 = Raise ValueError /\
  forall k, k < 0 -> sentence_based_chunks text k = Ok [].
Proof.
  split; [apply sentence_based_chunks_zero|].
  intros k Hk. now apply sentence_based_chunks_negative.
Qed.

Lemma range_length_ceil n k :
  0 <= n -> 1 <= k -> range_length 0 n k = (n + k - 1) / k.
Proof.
  intros Hn Hk. unfold range_length.
  destruct (Z.ltb_spec 0 k); [|lia].
  destruct (Z.ltb_spec 0 n).
  - replace (n + k - 1) with (n - 0 - 1 + 1 * k) by lia.
    now rewrite Z.div_add by lia.
  - replace n with 0 by lia. symmetry. apply Z.div_small. lia.
Qed.

(** With a batch size [k >= 1] the number of chunks is the number of
    sentences divided by [k], rounded up. *)
Theorem sentence_based_chunks_count text k :
  1 <= k ->
  exists chunks,
    sentence_based_chunks text k = Ok chunks /\
    len chunks = (len (sentences_of text) + k - 1) / k.
Proof.
  intros Hk. exists (sentence_based text (Z.to_nat k)).
  split; [now apply sentence_based_chunks_refines|].
  unfold sentence_based, batches, len at 1.
  rewrite length_map.
  rewrite (batches_fuel_slices k Hk (length (sentences_of text))) by lia.
  rewrite length_map, length_seq.
  pose proof (len_nonneg (sentences_of text)) as Hn.
  rewrite range_length_ceil by lia.
  apply Z2Nat.id. apply Z.div_pos; lia.
Qed.

Lemma sentence_based_chunks_count_witness :
  exists chunks,
    sentence_based_chunks (str "One. Two. Three. Four. Five.") 2 = Ok chunks /\
    len chunks = (len (sentences_of (str "One. Two. Three. Four. Five.")) + 2 - 1) / 2.
Proof. apply sentence_based_chunks_count. lia. Defined.

(** *** Characters of the chunks *)

Variable P : char -> Prop.

Lemma Forall_split_on sep s :
  Forall P s -> Forall (Forall P) (split_on sep s).
Proof.
  induction 1 as [|c s Hc Hs IH]; simpl; [repeat constructor|].
  destruct (N.eqb c sep); [constructor; [constructor|exact IH]|].
  destruct (split_on sep s) as [|w ws]; [repeat constructor; exact Hc|].
  inversion IH; subst. constructor; [now constructor|assumption].
Qed.

Lemma Forall_lstrip s : Forall P s -> Forall P (lstrip s).
Proof.
  induction 1 as [|c s Hc Hs IH]; simpl; [constructor|].
  destruct (isspace c); [exact IH|now constructor].
Qed.

Lemma Forall_strip s : Forall P s -> Forall P (strip s).
Proof.
  intros H. unfold strip, rstrip.
  now apply Forall_rev, Forall_lstrip, Forall_rev, Forall_lstrip.
Qed.

Lemma Forall_join sep l :
  Forall P sep -> Forall (Forall P) l -> Forall P (join sep l).
Proof.
  intros Hsep. induction 1 as [|x rest Hx Hrest IH]; simpl; [constructor|].
  destruct rest; [exact Hx|].
  apply Forall_app. split; [exact Hx|].
  apply Forall_app. split; [exact Hsep|exact IH].
Qed.

Lemma Forall_batches_fuel {A : Type} (R : A -> Prop) k fuel : forall l,
  Forall R l -> Forall (Forall R) (batches_fuel fuel k l).
Proof.
  induction fuel as [|fuel IH]; intros l Hl; [constructor|].
  destruct l as [|x l']; [constructor|].
  cbn [batches_fuel].
  rewrite <- (firstn_skipn k (x :: l')) in Hl. apply Forall_app in Hl as [H1 H2].
  constructor; [exact H1|now apply IH].
Qed.

Hypothesis P_dot : P (chr ".").
Hypothesis P_space : P (chr " ").

(** A property of characters that holds of ['.'], of [' '] and of the
    normalized text holds of every chunk. *)
Lemma Forall_sentence_based text k :
  Forall P (normalize text) ->
  Forall (Forall P) (sentence_based text k).
Proof.
  intros H. unfold sentence_based, sentences_of.
  apply Forall_map.
  assert (Hs : Forall (Forall P)
                 (filter truthy (map strip (split_on (chr ".") (normalize text))))).
  { apply Forall_forall. intros s Hin. apply filter_In in Hin as [Hin _].
    apply in_map_iff in Hin as (w & <- & Hw).
    apply Forall_strip.
    pose proof (Forall_split_on (chr ".") _ H) as Hf.
    rewrite Forall_forall in Hf. now apply Hf. }
  unfold batches.
  eapply Forall_impl; [|apply Forall_batches_fuel; exact Hs].
  intros batch Hb. apply Forall_app. split.
  - apply Forall_join; [|exact Hb]. repeat constructor; assumption.
  - repeat constructor; assumption.
Qed.

End SentencesMore.

Section SentencesMarks.
Import IndexDocuments.

Lemma normalize_no_marks text :
  Forall (fun c => c <> chr "!" /\ c <> chr "?") (normalize text).
Proof.
  unfold normalize. apply Forall_map, Forall_forall. intros c _.
  destruct (N.eqb_spec c (chr "!")) as [->|H1]; cbn [orb]; [split; discriminate|].
  destruct (N.eqb_spec c (chr "?")) as [->|H2]; [split; discriminate|].
  now split.
Qed.

(** No chunk contains ['!'] or ['?']. *)
Theorem sentence_based_chunks_no_marks text k chunks :
  sentence_based_chunks text k = Ok chunks ->
  Forall (fun chunk => ~ In (chr "!") chunk /\ ~ In (chr "?") chunk) chunks.
Proof.
  intros H. destruct (Z.lt_trichotomy k 0) as [Hk|[->|Hk]].
  - rewrite sentence_based_chunks_negative in H by exact Hk.
    injection H as <-. constructor.
  - rewrite sentence_based_chunks_zero in H. discriminate.
  - rewrite sentence_based_chunks_refines in H by lia. injection H as <-.
    eapply Forall_impl;
      [|apply (Forall_sentence_based (fun c => c <> chr "!" /\ c <> chr "?"));
        [split; discriminate|split; discriminate|apply normalize_no_marks]].
    intros chunk Hc. rewrite Forall_forall in Hc.
    split; intros Hin; apply Hc in Hin; tauto.
Qed.

Lemma sentence_based_chunks_no_marks_witness :
  Forall (fun chunk => ~ In (chr "!") chunk /\ ~ In (chr "?") chunk)
    [str "Hi there. What."; str "ok. fine."].
Proof.
  apply (sentence_based_chunks_no_marks (str " Hi there!  What?  ok.. fine ") 2).
  reflexivity.
Defined.

Lemma sentence_based_chunks_nonpositive_witness :
  sentence_based_chunks (str "One. Two.") (-3) = Ok [].
Proof.
  apply (proj2 (sentence_based_chunks_nonpositive (str "One. Two."))). lia.
Defined.

End SentencesMarks.

(** ** Paragraph chunking *)
Section Paragraphs.
Import IndexDocuments.

Lemma lstrip_head s c rest : lstrip s = c :: rest -> isspace c = false.
Proof.
  induction s as [|x s IH]; simpl; [discriminate|].
  destruct (isspace x) eqn:E; [exact IH|].
  intros H. injection H as <- _. exact E.
Qed.

Lemma lstrip_suffix s : exists ws, s = ws ++ lstrip s.
Proof.
  induction s as [|x s [ws IH]]; simpl; [now exists []|].
  destruct (isspace x); [|now exists []].
  exists (x :: ws). simpl. now rewrite <- IH.
Qed.

Lemma rstrip_prefix s : exists ws, s = rstrip s ++ ws.
Proof.
  unfold rstrip. destruct (lstrip_suffix (rev s)) as [ws H].
  exists (rev ws). rewrite <- rev_app_distr, <- H. symmetry. apply rev_involutive.
Qed.

Lemma rstrip_last s body c : rstrip s = body ++ [c] -> isspace c = false.
Proof.
  unfold rstrip. intros H. apply (f_equal (@rev char)) in H.
  rewrite rev_involutive, rev_app_distr in H. simpl in H.
  eapply lstrip_head, H.
Qed.

(** What [strip] leaves is empty or has no whitespace at either end. *)
Lemma strip_trimmed s : truthy (strip s) = true -> trimmed (strip s).
Proof.
  intros Ht. split; [intros E; rewrite E in Ht; discriminate|]. split.
  - intros c rest H. unfold strip in H.
    destruct (rstrip_prefix (lstrip s)) as [ws Hp].
    rewrite H in Hp. simpl in Hp. eapply lstrip_head, Hp.
  - intros body c H. unfold strip in H. eapply rstrip_last, H.
Qed.

(** Every paragraph chunk is non-empty and neither starts nor ends with
    whitespace. *)
Theorem paragraph_based_chunks_trimmed text :
  Forall trimmed (paragraph_based_chunks text).
Proof.
  unfold paragraph_based_chunks.
  rewrite stripped_nonempty_filter. apply Forall_forall. intros s Hin.
  apply filter_In in Hin as [Hin Ht].
  apply in_map_iff in Hin as (w & <- & _). now apply strip_trimmed.
Qed.

(** *** Texts without a blank line, texts of whitespace *)

Lemma starts_with_app p : forall s,
  starts_with p s = true -> exists rest, s = p ++ rest.
Proof.
  induction p as [|a p IH]; intros s H; [now exists s|].
  destruct s as [|b s]; [discriminate|]. simpl in H.
  apply andb_prop in H as [Hab Hp]. apply N.eqb_eq in Hab as ->.
  destruct (IH _ Hp) as [rest ->]. now exists rest.
Qed.

Lemma split_go_absent sep s : forall cur,
  ~ occurs sep s -> split_go sep s 0 cur = [rev cur ++ s].
Proof.
  induction s as [|c s IH]; intros cur Hn; [simpl; now rewrite app_nil_r|].
  cbn [split_go]. destruct (starts_with sep (c :: s)) eqn:E.
  - exfalso. apply Hn. apply starts_with_app in E as [rest E].
    exists [], rest. exact E.
  - rewrite IH.
    + simpl. now rewrite <- app_assoc.
    + intros (before & after & ->). apply Hn.
      now exists (c :: before), after.
Qed.

Lemma Forall_split_go (P : char -> Prop) sep s : forall skip cur,
  Forall P s -> Forall P cur -> Forall (Forall P) (split_go sep s skip cur).
Proof.
  induction s as [|c s IH]; intros skip cur Hs Hc; cbn [split_go].
  - constructor; [now apply Forall_rev|constructor].
  - inversion Hs; subst. destruct skip as [|skip]; [|now apply IH].
    destruct (starts_with sep (c :: s)).
    + constructor; [now apply Forall_rev|]. now apply IH.
    + apply IH; [assumption|now constructor].
Qed.

Lemma stripped_nonempty_whitespace fragments :
  Forall whitespace_only fragments -> stripped_nonempty fragments = [].
Proof.
  unfold stripped_nonempty.
  induction 1 as [|s rest Hs _ IH]; simpl; [reflexivity|].
  unfold strip. rewrite (lstrip_whitespace _ Hs). exact IH.
Qed.

(** A text without a blank line gives its trimmed self as the only chunk,
    or no chunk when nothing is left after trimming; a text of whitespace
    only gives no chunk, with or without blank lines. *)
Theorem paragraph_based_chunks_edge text :
  (~ occurs blank_line text ->
   paragraph_based_chunks text
     = if truthy (strip text) then [strip text] else []) /\
  (whitespace_only text -> paragraph_based_chunks text = []).
Proof.
  unfold paragraph_based_chunks, split. split.
  - intros Hn. fold blank_line. rewrite split_go_absent by exact Hn.
    unfold stripped_nonempty. cbn [rev app flat_map]. apply app_nil_r.
  - intros Hw. apply stripped_nonempty_whitespace.
    eapply Forall_impl;
      [|apply (Forall_split_go (fun c => isspace c = true)); [|constructor]].
    + intros s Hs. unfold whitespace_only. now apply forallb_forall, Forall_forall.
    + apply Forall_forall. unfold whitespace_only in Hw.
      now apply forallb_forall.
Qed.

Lemma starts_with_prefix p rest : starts_with p (p ++ rest) = true.
Proof.
  induction p as [|a p IH]; [reflexivity|].
  simpl. now rewrite N.eqb_refl, IH.
Qed.

Lemma occurs_contains sep s : occurs sep s -> contains sep s = true.
Proof.
  intros (before & after & ->).
  induction before as [|c before IH].
  - simpl app. destruct (sep ++ after) eqn:E; simpl;
      rewrite <- E, starts_with_prefix; reflexivity.
  - cbn [app contains]. rewrite IH. apply orb_true_r.
Qed.

Lemma paragraph_based_chunks_edge_witness :
  paragraph_based_chunks (str "  One paragraph. ") = [str "One paragraph."] /\
  paragraph_based_chunks (str "  " ++ blank_line ++ str " ") = [].
Proof.
  split.
  - apply (proj1 (paragraph_based_chunks_edge (str "  One paragraph. "))).
    intros H. apply occurs_contains in H. discriminate H.
  - apply (proj2 (paragraph_based_chunks_edge (str "  " ++ blank_line ++ str " "))).
    reflexivity.
Defined.

End Paragraphs.

(** ** The indexing run: rejections, success, what is stored *)
Section IndexingMore.
Import IndexDocuments.

Variable ext : externals.

Lemma pystr_eqb_eq a b : pystr_eqb a b = true <-> a = b.
Proof.
  unfold pystr_eqb. destruct (list_eq_dec N.eq_dec a b); split; congruence.
Qed.

Lemma pystr_eqb_neq a b : a <> b -> pystr_eqb a b = false.
Proof.
  intros H. destruct (pystr_eqb a b) eqn:E; [|reflexivity].
  apply pystr_eqb_eq in E. contradiction.
Qed.

(** A file whose extension is none of [.pdf], [.docx], [.doc] is refused
    with [ValueError] before anything else happens: the table is left as
    it was, whatever the strategy and the sizes. *)
Theorem process_document_unsupported_file db fp strategy chunk_size overlap spc :
  splitext_lower ext fp <> str ".pdf" ->
  splitext_lower ext fp <> str ".docx" ->
  splitext_lower ext fp <> str ".doc" ->
  extract_text ext fp = Raise ValueError /\
  process_document ext db fp strategy chunk_size overlap spc = Raised ValueError db.
Proof.
  intros H1 H2 H3.
  assert (E : extract_text ext fp = Raise ValueError).
  { unfold extract_text. now rewrite !pystr_eqb_neq. }
  split; [exact E|]. unfold process_document. now rewrite E.
Qed.

(** A strategy other than [fixed_size], [sentence] and [paragraph] raises
    [ValueError] once the text is extracted; the table is left as it
    was and no embedding is asked for. *)
Theorem process_document_unknown_strategy db fp strategy chunk_size overlap spc text :
  extract_text ext fp = Ok text ->
  strategy <> str "fixed_size" ->
  strategy <> str "sentence" ->
  strategy <> str "paragraph" ->
  process_document ext db fp strategy chunk_size overlap spc = Raised ValueError db.
Proof.
  intros E H1 H2 H3. unfold process_document, make_chunks.
  now rewrite E, !pystr_eqb_neq.
Qed.

Lemma generate_embedding_Ok chunk v :
  generate_embedding ext chunk = Ok v <-> embed_content ext chunk = Ok v.
Proof.
  unfold generate_embedding. destruct (embed_content ext chunk); split; congruence.
Qed.

Lemma embed_chunks_all_ok fname strategy chunks : forall acc,
  Forall (fun chunk => exists v, embed_content ext chunk = Ok v) chunks ->
  exists data, embed_chunks ext fname strategy chunks acc = Ok data.
Proof.
  induction chunks as [|chunk rest IH]; intros acc H; simpl; [eauto|].
  inversion H as [|? ? [v Hv] Hrest]; subst.
  apply generate_embedding_Ok in Hv. rewrite Hv. now apply IH.
Qed.

Lemma embed_chunks_Ok_all fname strategy chunks acc data :
  embed_chunks ext fname strategy chunks acc = Ok data ->
  Forall (fun chunk => exists v, embed_content ext chunk = Ok v) chunks.
Proof.
  intros H. apply embed_chunks_Ok in H as (fresh & _ & <- & Hf).
  apply Forall_map. eapply Forall_impl; [|exact Hf].
  intros d (Hd & _). eexists. apply generate_embedding_Ok, Hd.
Qed.

(** The steps of a run that returns. *)
Lemma process_document_Returned db fp strategy chunk_size overlap spc db' :
  process_document ext db fp strategy chunk_size overlap spc = Returned db' ->
  exists text chunks data,
    extract_text ext fp = Ok text /\
    make_chunks strategy text chunk_size overlap spc = Some (Ok chunks) /\
    connect_ok ext = true /\
    embed_chunks ext (basename ext fp) strategy chunks [] = Ok data /\
    insert_ok ext = true /\
    db' = {| rows := new_rows ext 1 data; id_seq := 1 + len data |}.
Proof.
  unfold process_document. intros H.
  destruct (extract_text ext fp) as [text|e]; [|discriminate].
  destruct (make_chunks strategy text chunk_size overlap spc)
    as [[chunks|e]|] eqn:Ec; try discriminate.
  destruct (connect_ok ext); [|discriminate].
  destruct (embed_chunks ext _ strategy chunks []) as [data|e] eqn:E;
    [|discriminate].
  unfold insert_chunks in H. destruct (insert_ok ext); [|discriminate].
  injection H as <-. now exists text, chunks, data.
Qed.

(** A run returns exactly when the extraction succeeds, the chunker
    returns, the database is reached, the embedding service answers for
    every chunk and the bulk insert succeeds. *)
Theorem process_document_returns_iff db fp strategy chunk_size overlap spc :
  (exists db', process_document ext db fp strategy chunk_size overlap spc
               = Returned db') <->
  (exists text chunks,
     extract_text ext fp = Ok text /\
     make_chunks strategy text chunk_size overlap spc = Some (Ok chunks) /\
     connect_ok ext = true /\
     Forall (fun chunk => exists v, embed_content ext chunk = Ok v) chunks /\
     insert_ok ext = true).
Proof.
  split.
  - intros [db' H].
    apply process_document_Returned in H
      as (text & chunks & data & Et & Ec & Hc & Ee & Hi & _).
    exists text, chunks. repeat split; try assumption.
    eapply embed_chunks_Ok_all, Ee.
  - intros (text & chunks & Et & Ec & Hc & Ha & Hi).
    destruct (embed_chunks_all_ok (basename ext fp) strategy chunks [] Ha)
      as [data Ee].
    unfold process_document, insert_chunks.
    rewrite Et, Ec, Hc, Ee, Hi. eauto.
Qed.

Lemma embed_chunks_at_time stamp fname strategy chunks : forall acc,
  embed_chunks (at_time ext stamp) fname strategy chunks acc
  = embed_chunks ext fname strategy chunks acc.
Proof.
  induction chunks as [|chunk rest IH]; intros acc; [reflexivity|].
  cbn [embed_chunks].
  change (generate_embedding (at_time ext stamp) chunk)
    with (generate_embedding ext chunk).
  destruct (generate_embedding ext chunk); [apply IH|reflexivity].
Qed.

Lemma new_rows_at_time stamp data : forall next,
  new_rows (at_time ext stamp) next data
  = map (restamp stamp) (new_rows ext next data).
Proof.
  induction data as [|d data IH]; intros next; [reflexivity|].
  cbn [new_rows map]. now rewrite IH.
Qed.

(** What a run that returns has stored does not depend on what the
    database held before, or on whether it had the table: a run at any
    other time, from any other state of the database, with the same
    answers from its collaborators, returns a table with the same rows
    but for their timestamp, which is that of the other run, and the same
    id sequence. *)
Theorem process_document_ignores_old_rows db1 db2 fp strategy chunk_size overlap spc
  t stamp :
  process_document ext db1 fp strategy chunk_size overlap spc = Returned t ->
  process_document (at_time ext stamp) db2 fp strategy chunk_size overlap spc
  = Returned {| rows := map (restamp stamp) (rows t); id_seq := id_seq t |}.
Proof.
  intros H.
  apply process_document_Returned in H
    as (text & chunks & data & Et & Ec & Hc & Ee & Hi & ->).
  unfold process_document, insert_chunks, delete_all_chunks.
  change (extract_text (at_time ext stamp) fp) with (extract_text ext fp).
  rewrite Et, Ec. cbn [connect_ok insert_ok at_time basename]. rewrite Hc.
  rewrite embed_chunks_at_time, Ee, Hi. cbn [rows id_seq app].
  now rewrite new_rows_at_time.
Qed.

Lemma new_rows_ids next data :
  map id (new_rows ext next data)
  = map (fun i => next + Z.of_nat i) (seq 0 (length data)).
Proof.
  revert next. induction data as [|d data IH]; intros next; [reflexivity|].
  cbn [new_rows map length]. rewrite <- cons_seq, <- seq_shift.
  cbn [map]. rewrite map_map, IH. f_equal; [simpl; lia|].
  apply map_ext. intros i. lia.
Qed.

Lemma new_rows_length next data :
  length (new_rows ext next data) = length data.
Proof.
  revert next. induction data as [|d data IH]; intros next; simpl; [reflexivity|].
  now rewrite IH.
Qed.

Lemma new_rows_stamp next data :
  Forall (fun r => created_at r = now ext) (new_rows ext next data).
Proof.
  revert next. induction data as [|d data IH]; intros next; simpl;
    constructor; [reflexivity|apply IH].
Qed.

(** After a run that returns, the rows are numbered 1, 2, ... in chunk
    order, the sequence stands one past the last id, and all rows carry
    the same timestamp. *)
Theorem process_document_ids db fp strategy chunk_size overlap spc db' :
  process_document ext db fp strategy chunk_size overlap spc = Returned db' ->
  map id (rows db') = map (fun i => 1 + Z.of_nat i) (seq 0 (length (rows db'))) /\
  id_seq db' = 1 + len (rows db') /\
  Forall (fun r => created_at r = now ext) (rows db').
Proof.
  intros H.
  apply process_document_Returned in H
    as (text & chunks & data & _ & _ & _ & _ & _ & ->).
  cbn [rows id_seq]. unfold len. rewrite new_rows_length.
  split; [apply new_rows_ids|]. split; [reflexivity|apply new_rows_stamp].
Qed.

Lemma embed_chunks_length fname strategy chunks acc data :
  embed_chunks ext fname strategy chunks acc = Ok data ->
  len data = len acc + len chunks.
Proof.
  intros H. apply embed_chunks_Ok in H as (fresh & -> & <- & _).
  unfold len. rewrite length_app, length_map. lia.
Qed.

(** When the database cannot be reached the run raises and the database
    is as it was.  When the bulk insert fails after every embedding call
    succeeded, the run raises what the insert raised and the table holds
    no row; the ids the failed insert drew are not given back, so the
    sequence stands between 1 and one past the number of chunks. *)
Theorem process_document_database_failures db fp strategy chunk_size overlap spc
  text chunks :
  extract_text ext fp = Ok text ->
  make_chunks strategy text chunk_size overlap spc = Some (Ok chunks) ->
  (connect_ok ext = false ->
   process_document ext db fp strategy chunk_size overlap spc
     = Raised DatabaseError db) /\
  (connect_ok ext = true ->
   Forall (fun chunk => exists v, embed_content ext chunk = Ok v) chunks ->
   insert_ok ext = false ->
   exists t,
     process_document ext db fp strategy chunk_size overlap spc
       = Raised (insert_error ext) (Present t) /\
     rows t = [] /\ 1 <= id_seq t <= 1 + len chunks).
Proof.
  intros Et Ec. unfold process_document, insert_chunks. rewrite Et, Ec. split.
  - now intros ->.
  - intros -> Ha Hi.
    destruct (embed_chunks_all_ok (basename ext fp) strategy chunks [] Ha)
      as [data Ee].
    rewrite Ee, Hi. eexists. split; [reflexivity|]. split; [reflexivity|].
    apply embed_chunks_length in Ee.
    change (len (@nil chunk_dict)) with 0 in Ee.
    unfold delete_all_chunks. cbn zeta. cbn [id_seq].
    unfold len, pystr in *. lia.
Qed.

End IndexingMore.

Section IndexingWitnesses.
Import IndexDocuments.

Lemma process_document_unsupported_file_witness :
  extract_text Demo.externals_txt (str "notes.txt") = Raise ValueError /\
  process_document Demo.externals_txt (Present Demo.old_table) (str "notes.txt")
    (str "fixed_size") 1 1 5 = Raised ValueError (Present Demo.old_table).
Proof.
  apply process_document_unsupported_file; discriminate.
Defined.

Lemma process_document_unknown_strategy_witness :
  process_document (Demo.externals_for (str "abcd") Demo.embed_ok)
    (Present Demo.old_table) (str "doc.pdf") (str "words") 2 0 5
  = Raised ValueError (Present Demo.old_table).
Proof.
  apply (process_document_unknown_strategy _ _ _ _ _ _ _ (str "abcd"));
    [reflexivity|discriminate|discriminate|discriminate].
Defined.

Lemma process_document_ignores_old_rows_witness :
  process_document
    (at_time (Demo.externals_for (str "abcd") Demo.embed_ok) 7)
    Absent (str "doc.pdf") (str "fixed_size") 2 0 5
  = Returned
      {| rows := [mkRow 1 (str "ab") (PyList [Finite 1; Finite 0]) (str "doc.pdf")
                    (str "fixed_size") 7;
                  mkRow 2 (str "cd") (PyList [Finite 1; Finite 0]) (str "doc.pdf")
                    (str "fixed_size") 7];
         id_seq := 3 |}.
Proof.
  apply (process_document_ignores_old_rows
           (Demo.externals_for (str "abcd") Demo.embed_ok)
           (Present Demo.old_table) Absent (str "doc.pdf") (str "fixed_size")
           2 0 5
           {| rows := [mkRow 1 (str "ab") (PyList [Finite 1; Finite 0])
                         (str "doc.pdf") (str "fixed_size") 0;
                       mkRow 2 (str "cd") (PyList [Finite 1; Finite 0])
                         (str "doc.pdf") (str "fixed_size") 0];
              id_seq := 3 |} 7).
  reflexivity.
Defined.

Lemma process_document_ids_witness :
  map id [mkRow 1 (str "ab") (PyList [Finite 1; Finite 0]) (str "doc.pdf")
            (str "fixed_size") 0;
          mkRow 2 (str "cd") (PyList [Finite 1; Finite 0]) (str "doc.pdf")
            (str "fixed_size") 0]
  = [1; 2].
Proof.
  apply (process_document_ids (Demo.externals_for (str "abcd") Demo.embed_ok)
           (Present Demo.old_table) (str "doc.pdf") (str "fixed_size") 2 0 5
           {| rows := [mkRow 1 (str "ab") (PyList [Finite 1; Finite 0]) (str "doc.pdf")
                         (str "fixed_size") 0;
                       mkRow 2 (str "cd") (PyList [Finite 1; Finite 0]) (str "doc.pdf")
                         (str "fixed_size") 0];
              id_seq := 3 |}).
  reflexivity.
Defined.

Lemma process_document_database_failures_witness :
  process_document Demo.externals_offline (Present Demo.old_table)
    (str "doc.docx") (str "paragraph") 2 0 5
    = Raised DatabaseError (Present Demo.old_table) /\
  exists t,
    process_document Demo.externals_insert_fails (Present Demo.old_table)
      (str "doc.doc") (str "paragraph") 2 0 5
      = Raised DatabaseError (Present t) /\
    rows t = [] /\ 1 <= id_seq t <= 1 + len [str "abcd"].
Proof.
  split.
  - apply (proj1 (process_document_database_failures Demo.externals_offline
                    (Present Demo.old_table) (str "doc.docx") (str "paragraph")
                    2 0 5 (str "abcd") [str "abcd"] eq_refl eq_refl)).
    reflexivity.
  - apply (proj2 (process_document_database_failures Demo.externals_insert_fails
                    (Present Demo.old_table) (str "doc.doc") (str "paragraph")
                    2 0 5 (str "abcd") [str "abcd"] eq_refl eq_refl)).
    + reflexivity.
    + repeat constructor. now exists [Finite 1; Finite 0].
    + reflexivity.
Defined.

Lemma process_document_returns_iff_witness :
  exists db',
    process_document (Demo.externals_for (str "abcd") Demo.embed_ok)
      (Present Demo.old_table) (str "doc.pdf") (str "fixed_size") 2 0 5
    = Returned db'.
Proof.
  apply process_document_returns_iff.
  exists (str "abcd"), [str "ab"; str "cd"].
  repeat split; try reflexivity.
  repeat constructor; now exists [Finite 1; Finite 0].
Defined.

End IndexingWitnesses.

(** ** The ranker: what is returned, when it raises *)
Section RankerMore.
Import SearchDocuments.

Variable cosine : vector -> vector -> Q.

Lemma In_firstn {A : Type} (x : A) m l : In x (firstn m l) -> In x l.
Proof.
  intros H. rewrite <- (firstn_skipn m l). apply in_or_app. now left.
Qed.

(** Every result is a stored row with a non-empty vector, paired with
    the similarity of the query and that vector. *)
Theorem search_results_are_candidates db query top_k results :
  search_similar_chunks cosine db query top_k = Ok results ->
  Forall (fun h => exists r,
            In r (stored_rows db) /\ usable r = true /\
            h = (info_of r, cosine query (chunk_embedding_of (embedding r))))
         results.
Proof.
  intros H. apply search_similar_chunks_Ok in H.
  destruct (slice_to_firstn
              (sort snd true (scored cosine query (stored_rows db))) top_k)
    as [m Hm].
  rewrite Hm in H. subst results. apply Forall_forall. intros h Hin.
  apply In_firstn in Hin.
  apply (Permutation_in _ (sort_perm snd true _)) in Hin.
  unfold scored in Hin. apply in_map_iff in Hin as (r & <- & Hr).
  apply filter_In in Hr as [Hr Hu]. now exists r.
Qed.

(** The first result has the highest score of all candidates. *)
Theorem search_first_is_best db query top_k best rest :
  search_similar_chunks cosine db query top_k = Ok (best :: rest) ->
  Forall (fun candidate => (snd candidate <= snd best)%Q)
         (scored cosine query (stored_rows db)).
Proof.
  intros H. apply search_similar_chunks_Ok in H.
  destruct (slice_to_firstn
              (sort snd true (scored cosine query (stored_rows db))) top_k)
    as [m Hm].
  rewrite Hm in H.
  pose proof (sort_reverse_sorted snd (scored cosine query (stored_rows db))) as Hs.
  pose proof (sort_perm snd true (scored cosine query (stored_rows db))) as Hp.
  destruct (sort snd true (scored cosine query (stored_rows db))) as [|h tail];
    [rewrite firstn_nil in H; discriminate H|].
  destruct m as [|m]; simpl in H; [discriminate H|]. injection H as <- _.
  apply StronglySorted_inv in Hs as [_ Hh].
  apply Forall_forall. intros c Hc.
  apply (Permutation_in _ (Permutation_sym Hp)) in Hc.
  destruct Hc as [<-|Hc]; [apply Qle_refl|].
  rewrite Forall_forall in Hh. now apply Hh.
Qed.

(** Asking for fewer results gives the beginning of what asking for more
    gives. *)
Theorem search_top_k_monotone db query k1 k2 r1 r2 :
  0 <= k1 <= k2 ->
  search_similar_chunks cosine db query k1 = Ok r1 ->
  search_similar_chunks cosine db query k2 = Ok r2 ->
  r1 = firstn (Z.to_nat k1) r2.
Proof.
  intros Hk H1 H2.
  apply search_similar_chunks_Ok in H1, H2.
  rewrite slice_to_nonneg in H1, H2 by lia. subst r1 r2.
  rewrite firstn_firstn. f_equal. lia.
Qed.

Lemma scorable_cases query rs :
  Forall (fun r => usable r = true -> scorable query r) rs \/
  Exists (unscorable query) rs.
Proof.
  induction rs as [|r rs [IH|IH]].
  - left. constructor.
  - destruct (usable r) eqn:Eu.
    + destruct (Nat.eq_dec (length (chunk_embedding_of (embedding r)))
                  (length query)) as [Hw|Hw];
        [|right; apply Exists_cons_hd; split; [exact Eu|now left]].
      destruct (all_finite query) eqn:Hq;
        [|right; apply Exists_cons_hd; split; [exact Eu|now right; left]].
      destruct (all_finite (chunk_embedding_of (embedding r))) eqn:Hv;
        [|right; apply Exists_cons_hd; split; [exact Eu|now right; right]].
      left. constructor; [|exact IH]. intros _. now repeat split.
    + left. constructor; [intros Hu; congruence|exact IH].
  - right. now apply Exists_cons_tl.
Qed.

(** The search raises in two cases and no other: the database has no
    table, and the error is the database's; or some row with a non-empty
    vector cannot be compared with the query, because their widths differ
    or one of them holds a NaN or an infinity, and the error is
    [ValueError].  [top_k] plays no part in it. *)
Theorem search_raises_iff db query top_k e :
  search_similar_chunks cosine db query top_k = Raise e <->
  (db = Absent /\ e = DatabaseError) \/
  (e = ValueError /\ Exists (unscorable query) (stored_rows db)).
Proof.
  unfold search_similar_chunks. destruct db as [|t]; cbn [fetchall bind stored_rows].
  - split.
    + intros H. left. split; [reflexivity|congruence].
    + intros [[_ ->]|[_ H]]; [reflexivity|inversion H].
  - split.
    + intros H. right.
      destruct (scorable_cases query (rows t)) as [Hf|He].
      * rewrite scan_rows_scorable in H by exact Hf. discriminate H.
      * rewrite scan_rows_unscorable in H by exact He. cbn [bind] in H.
        split; [congruence|exact He].
    + intros [[H _]|[-> He]]; [discriminate H|].
      now rewrite scan_rows_unscorable.
Qed.

End RankerMore.

(** ** Indexing, then searching *)
Section RoundTrip.
Import IndexDocuments SearchDocuments.

Variable cosine : vector -> vector -> Q.

(** After a run that returns, a search whose query has the width of the
    stored vectors and whose [top_k] is at least the number of chunks
    returns every chunk of the run exactly once, each with the file name
    and the strategy of the run; the query and the vectors as stored hold
    no NaN and no infinity. *)
Theorem index_then_search ext db fp strategy chunk_size overlap spc db'
  text chunks query top_k :
  process_document ext db fp strategy chunk_size overlap spc = Returned db' ->
  extract_text ext fp = Ok text ->
  make_chunks strategy text chunk_size overlap spc = Some (Ok chunks) ->
  query <> [] ->
  (forall chunk v, embed_content ext chunk = Ok v -> length v = length query) ->
  all_finite query = true ->
  (forall chunk v, embed_content ext chunk = Ok v ->
     all_finite (map (to_real ext) v) = true) ->
  len chunks <= top_k ->
  exists results,
    search_similar_chunks cosine (Present db') query top_k = Ok results /\
    Permutation (map (fun h => ci_chunk_text (fst h)) results) chunks /\
    Forall (fun h => ci_filename (fst h) = basename ext fp /\
                     ci_split_strategy (fst h) = strategy) results.
Proof.
  intros H Et Ec Hq Hw Hfq Hfv Hk.
  apply process_document_Returned in H
    as (text' & chunks' & data & Et' & Ec' & _ & Ee & _ & ->).
  assert (text' = text) by congruence. subst text'.
  assert (chunks' = chunks) by congruence. subst chunks'.
  apply embed_chunks_Ok in Ee as (fresh & Hd & Hm & Hf).
  cbn [app] in Hd. subst data.
  pose proof (new_rows_embedded ext (basename ext fp) strategy fresh 1 Hf)
    as Hrows.
  pose proof (new_rows_text ext 1 fresh) as Htext.
  pose proof (new_rows_length ext 1 fresh) as Hlen.
  set (stored := new_rows ext 1 fresh) in *.
  assert (Hall : Forall (fun r => usable r = true /\ scorable query r) stored).
  { eapply Forall_impl; [|exact Hrows].
    intros r ((v & Hv & Hg) & _ & _).
    apply generate_embedding_Ok in Hg.
    pose proof (Hw _ _ Hg) as Hlv. pose proof (Hfv _ _ Hg) as Hfin.
    unfold usable, scorable, same_width. rewrite Hv. cbn [chunk_embedding_of].
    rewrite length_map. repeat split; try assumption.
    destruct v; [|reflexivity]. destruct query; [contradiction|discriminate]. }
  assert (Hfilter : filter usable stored = stored).
  { apply filter_all. eapply Forall_impl; [|exact Hall]. now intros r [Hu _]. }
  exists (sort snd true (scored cosine query stored)).
  split; [|split].
  - unfold search_similar_chunks. cbn [fetchall bind rows].
    rewrite scan_rows_scorable
      by (eapply Forall_impl; [|exact Hall]; now intros r [_ Hs] _).
    cbn [bind app]. rewrite slice_to_nonneg by (unfold len in Hk; lia).
    rewrite firstn_all2; [reflexivity|].
    rewrite (Permutation_length (sort_perm snd true _)).
    unfold scored. rewrite length_map, Hfilter, Hlen.
    rewrite <- Hm in Hk. unfold len in Hk. rewrite length_map in Hk. lia.
  - rewrite (Permutation_map _ (sort_perm snd true _)).
    unfold scored. rewrite Hfilter, map_map.
    rewrite (map_ext _ chunk_text) by reflexivity.
    now rewrite Htext, Hm.
  - eapply Permutation_Forall; [symmetry; apply sort_perm|].
    unfold scored. rewrite Hfilter. apply Forall_map.
    eapply Forall_impl; [|exact Hrows].
    intros r (_ & Hn & Hs). now split.
Qed.

(** *** search_documents *)

(** When the embedding service fails on the query the function raises
    [ValueError], whatever the table holds; when the service answers and
    the database cannot be reached it raises the database error. *)
Theorem search_documents_failures ext db query top_k :
  (forall e, embed_query ext query = Raise e ->
     search_documents cosine ext db query top_k = Raise ValueError) /\
  (forall v, embed_query ext query = Ok v -> db_reachable ext = false ->
     search_documents cosine ext db query top_k = Raise DatabaseError).
Proof.
  unfold search_documents, EmbeddingGenerator.generate_embedding.
  split.
  - intros e ->. reflexivity.
  - intros v -> ->. reflexivity.
Qed.

(** A text of at most 500 characters is printed whole; a longer one as
    its first 500 characters and three dots. *)
Lemma preview_cases chunk_text :
  (len chunk_text <= 500 -> preview chunk_text = chunk_text) /\
  (500 < len chunk_text ->
   preview chunk_text = firstn 500 chunk_text ++ str "...").
Proof.
  unfold preview. destruct (Z.gtb_spec (len chunk_text) 500); split;
    try lia; try reflexivity.
  intros _. now rewrite slice_to_nonneg by lia.
Qed.

Lemma show_hit_shows i h : shows i h (show_hit (i, h)).
Proof.
  destruct h as [c s]. unfold shows. cbn [show_hit sh_number sh_similarity
    sh_filename sh_split_strategy sh_id sh_chunk fst snd].
  repeat split; apply preview_cases.
Qed.

Lemma enumerate_shows results : forall i,
  shows_all i results (map show_hit (enumerate results i)).
Proof.
  induction results as [|h rest IH]; intros i; [exact I|].
  cbn [enumerate map shows_all]. split; [apply show_hit_shows|apply IH].
Qed.

(** What the function reports: nothing found exactly when the ranker
    returns no result; otherwise one entry per result, in ranking order,
    numbered from 1, with the result's score, file name, strategy and id,
    and its text, whole when it has at most 500 characters and else its
    first 500 characters followed by three dots. *)
Theorem search_documents_report ext db query top_k rep :
  search_documents cosine ext db query top_k = Ok rep ->
  exists query_embedding results,
    embed_query ext query = Ok query_embedding /\
    search_similar_chunks cosine db query_embedding top_k = Ok results /\
    match rep with
    | NoResults => results = []
    | Found entries => results <> [] /\ shows_all 1 results entries
    end.
Proof.
  unfold search_documents, EmbeddingGenerator.generate_embedding.
  destruct (embed_query ext query) as [qv|e]; [|discriminate].
  cbn [bind]. destruct (db_reachable ext); [|discriminate].
  destruct (search_similar_chunks cosine db qv top_k) as [results|e] eqn:Es;
    [|discriminate].
  cbn [bind]. intros H. exists qv, results.
  split; [reflexivity|]. split; [exact Es|].
  destruct (truthy results) eqn:Et; cbn [negb] in H; injection H as <-.
  2: { now destruct results. }
  split; [intros ->; discriminate Et|]. apply enumerate_shows.
Qed.

End RoundTrip.

Section RankerWitnesses.
Import IndexDocuments SearchDocuments.

Lemma search_results_are_candidates_witness :
  Forall (fun h => exists r,
            In r (stored_rows (Present Demo.with_blank)) /\ usable r = true /\
            h = (info_of r,
                 Demo.dot [Finite 1; Finite 0] (chunk_embedding_of (embedding r))))
         [Demo.hit_of 1 "first" 1; Demo.hit_of 3 "third" 0].
Proof.
  apply (search_results_are_candidates Demo.dot (Present Demo.with_blank)
           [Finite 1; Finite 0] 5).
  reflexivity.
Defined.

Lemma search_first_is_best_witness :
  Forall (fun candidate => (snd candidate <= snd (Demo.hit_of 2 "second" 1))%Q)
         (scored Demo.dot [Finite 0; Finite 1]
            (stored_rows (Present Demo.three_rows))).
Proof.
  apply (search_first_is_best Demo.dot (Present Demo.three_rows)
           [Finite 0; Finite 1] 2
           (Demo.hit_of 2 "second" 1) [Demo.hit_of 1 "first" 0]).
  reflexivity.
Defined.

Lemma search_top_k_monotone_witness :
  [Demo.hit_of 1 "first" 1]
  = firstn (Z.to_nat 1) [Demo.hit_of 1 "first" 1; Demo.hit_of 3 "third" 1].
Proof.
  apply (search_top_k_monotone Demo.dot (Present Demo.three_rows)
           [Finite 1; Finite 0] 1 2);
    [lia|reflexivity|reflexivity].
Defined.

Lemma search_raises_iff_witness :
  search_similar_chunks Demo.dot (Present Demo.with_nan) [Finite 1; Finite 0] 0
  = Raise ValueError.
Proof.
  apply (proj2 (search_raises_iff Demo.dot (Present Demo.with_nan)
                  [Finite 1; Finite 0] 0 ValueError)).
  right. split; [reflexivity|].
  apply Exists_cons_tl, Exists_cons_hd. split; [reflexivity|].
  right. right. reflexivity.
Defined.

Lemma search_top_k_nonneg_witness :
  [Demo.hit_of 1 "first" 1; Demo.hit_of 3 "third" 1]
  = firstn (Z.to_nat 2)
      (sort snd true (scored Demo.dot [Finite 1; Finite 0]
                        (stored_rows (Present Demo.three_rows)))) /\
  length [Demo.hit_of 1 "first" 1; Demo.hit_of 3 "third" 1]
  = Nat.min (Z.to_nat 2)
      (length (filter usable (stored_rows (Present Demo.three_rows)))).
Proof.
  apply (search_top_k_nonneg Demo.dot (Present Demo.three_rows)
           [Finite 1; Finite 0] 2);
    [lia|reflexivity].
Defined.

Lemma index_then_search_witness :
  exists results,
    search_similar_chunks Demo.dot
      (Present
         {| rows := [mkRow 1 (str "ab") (PyList [Finite 1; Finite 0])
                       (str "doc.pdf") (str "fixed_size") 0;
                     mkRow 2 (str "cd") (PyList [Finite 1; Finite 0])
                       (str "doc.pdf") (str "fixed_size") 0];
            id_seq := 3 |}) [Finite 0; Finite 1] 5 = Ok results /\
    Permutation (map (fun h => ci_chunk_text (fst h)) results)
      [str "ab"; str "cd"] /\
    Forall (fun h => ci_filename (fst h) = str "doc.pdf" /\
                     ci_split_strategy (fst h) = str "fixed_size") results.
Proof.
  apply (index_then_search Demo.dot
           (Demo.externals_for (str "abcd") Demo.embed_ok)
           (Present Demo.old_table)
           (str "doc.pdf") (str "fixed_size") 2 0 5 _ (str "abcd")).
  - reflexivity.
  - reflexivity.
  - reflexivity.
  - discriminate.
  - intros chunk v H. injection H as <-. reflexivity.
  - reflexivity.
  - intros chunk v H. injection H as <-. reflexivity.
  - unfold len. simpl. lia.
Defined.

Lemma search_documents_failures_witness :
  search_documents Demo.dot Demo.search_oracle_down (Present Demo.three_rows)
    (str "anything") 5 = Raise ValueError.
Proof.
  apply (proj1 (search_documents_failures Demo.dot Demo.search_oracle_down
                  (Present Demo.three_rows) (str "anything") 5) DatabaseError).
  reflexivity.
Defined.

Lemma search_documents_report_witness :
  exists query_embedding results,
    embed_query Demo.search_oracle (str "first") = Ok query_embedding /\
    search_similar_chunks Demo.dot (Present Demo.three_rows) query_embedding 2
      = Ok results /\
    results <> [] /\
    shows_all 1 results
      (map show_hit
         (enumerate [Demo.hit_of 1 "first" 1; Demo.hit_of 3 "third" 1] 1)).
Proof.
  apply (search_documents_report Demo.dot Demo.search_oracle
           (Present Demo.three_rows) (str "first") 2
           (Found (map show_hit
                     (enumerate [Demo.hit_of 1 "first" 1;
                                 Demo.hit_of 3 "third" 1] 1)))).
  reflexivity.
Defined.

End RankerWitnesses.
